(** * blockchainetl_common.streaming.streamer

    A shallow embedding of [streamer.py]: the checkpoint file helpers
    ([write_last_synced_block], [init_last_synced_block_file],
    [read_last_synced_block], [write_to_file], [delete_file]) and the
    [Streamer] class ([__init__], [stream], [_do_stream], [_sync_cycle],
    [_calculate_target_block]), followed by the properties of the
    synchronisation loop.

    Python integers are unbounded and are modelled by [Z]; [min] and [max]
    on them are [Z.min] and [Z.max].  Python's [str] objects are modelled
    by [string] restricted to ASCII. *)

From Stdlib Require Import ZArith String Ascii DecimalString DecimalZ.
From stdpp Require Import gmap strings list.

Local Open Scope string_scope.
Local Open Scope list_scope.
Local Open Scope Z_scope.

(** ** Exceptions *)

(** The exceptions that can travel through the streamer.  [ValueError] is
    raised by [init_last_synced_block_file] and by [int(...)];
    [FileNotFoundError] by opening a missing file for reading.  An adapter
    may raise anything: [AdapterError] stands for its [Exception]
    subclasses and [KeyboardInterrupt] for the [BaseException]s that
    [except Exception] does not catch. *)
Inductive PyExc : Type :=
  | ValueError (msg : string)
  | FileNotFoundError (file : string)
  | AdapterError (code : nat)
  | KeyboardInterrupt.

(** [isinstance(e, Exception)]. *)
Definition is_Exception (e : PyExc) : bool :=
  match e with
  | KeyboardInterrupt => false
  | _ => true
  end.

(** The three ways a Python call can end in the model: it returns, it
    raises, or the fuel given to a loop ran out while it was still
    running. *)
Inductive Res (X : Type) : Type :=
  | Ret (x : X)
  | Exc (e : PyExc)
  | Timeout.
Arguments Ret {X} x.
Arguments Exc {X} e.
Arguments Timeout {X}.

(** ** The builtins [str] and [int] on integers *)

Module Py.

(** [str(n)] for an [int]: the shortest decimal numeral, with a leading
    minus sign for negative numbers. *)
Definition str (n : Z) : string := NilZero.string_of_int (Z.to_int n).

(** Whitespace as [int] strips it, on the ASCII range: tab, line feed,
    vertical tab, form feed, carriage return, the separators
    0x1C..0x1F and the space. *)
Definition isspace (c : ascii) : bool :=
  let n := nat_of_ascii c in
  ((9 <=? n) && (n <=? 13) || (28 <=? n) && (n <=? 32))%nat.

Fixpoint lstrip (s : string) : string :=
  match s with
  | EmptyString => EmptyString
  | String c s' => if isspace c then lstrip s' else s
  end.

Fixpoint rstrip (s : string) : string :=
  match s with
  | EmptyString => EmptyString
  | String c s' =>
      match rstrip s' with
      | EmptyString => if isspace c then EmptyString else String c EmptyString
      | r => String c r
      end
  end.

Definition strip (s : string) : string := lstrip (rstrip s).

Definition digit (c : ascii) : option (Decimal.uint -> Decimal.uint) :=
  match c with
  | "0"%char => Some Decimal.D0
  | "1"%char => Some Decimal.D1
  | "2"%char => Some Decimal.D2
  | "3"%char => Some Decimal.D3
  | "4"%char => Some Decimal.D4
  | "5"%char => Some Decimal.D5
  | "6"%char => Some Decimal.D6
  | "7"%char => Some Decimal.D7
  | "8"%char => Some Decimal.D8
  | "9"%char => Some Decimal.D9
  | _ => None
  end.

(** The digit part of an integer literal in base 10: one or more
    digits, with single underscores allowed between two digits. *)
Fixpoint digits (s : string) : option Decimal.uint :=
  match s with
  | EmptyString => None
  | String c rest =>
      match digit c with
      | None => None
      | Some d =>
          match rest with
          | EmptyString => Some (d Decimal.Nil)
          | String "_"%char rest' => d <$> digits rest'
          | _ => d <$> digits rest
          end
      end
  end.

(** An integer literal in base 10: an optional sign, then the digits. *)
Definition literal (t : string) : option Decimal.int :=
  match t with
  | String "-"%char r => Decimal.Neg <$> digits r
  | String "+"%char r => Decimal.Pos <$> digits r
  | _ => Decimal.Pos <$> digits t
  end.

(** [int(s)] for a [str]: surrounding whitespace is stripped and the
    rest must be an integer literal; otherwise [ValueError] is raised. *)
Definition int (s : string) : Res Z :=
  match literal (strip s) with
  | Some d => Ret (Z.of_int d)
  | None => Exc (ValueError ("invalid literal for int() with base 10: " +:+ s))
  end.

Definition digit_char (c : ascii) : Prop := is_Some (digit c).

(** No character of [s] is whitespace. *)
Fixpoint no_space (s : string) : bool :=
  match s with
  | EmptyString => true
  | String c s' => negb (isspace c) && no_space s'
  end.


End Py.

(** ** The file system seen through [smart_open] *)

(** Modelled from the spec: [blockchainetl_common.file_utils.smart_open]
    is not part of the sources at hand.  The checkpoint store of the
    specification reads a record that may be missing, and a write
    "overwrites the record in full"; a path is therefore mapped to the
    whole content of the regular file that exists there.
    [os.path.isfile] asks whether the path is mapped. *)
Abbreviation Files := (gmap string string).

Definition isfile (file : string) (fs : Files) : bool :=
  bool_decide (is_Some (fs !! file)).

(** [smart_open(file, 'r')] followed by [read()]. *)
Definition read_file (file : string) (fs : Files) : Res string :=
  match fs !! file with
  | Some content => Ret content
  | None => Exc (FileNotFoundError file)
  end.

(** ** Effects *)

(** What the streamer does to the outside world, in the order in which it
    happens.  Adapter calls are recorded when they are made, whether or
    not they raise. *)
Inductive Event : Type :=
  | EWrite (file content : string)
  | ERemove (file : string)
  | EOpen
  | EClose
  | EGetCurrentBlockNumber
  | EExportAll (start_block end_block : Z)
  | ESleep (seconds : Z).

(** ** Observations on a trace *)

Definition is_close (ev : Event) : bool :=
  match ev with EClose => true | _ => false end.

Definition is_write (ev : Event) : bool :=
  match ev with EWrite _ _ => true | _ => false end.

Fixpoint count_events (p : Event -> bool) (tr : list Event) : nat :=
  match tr with
  | [] => O
  | ev :: tr' => ((if p ev then 1 else 0) + count_events p tr')%nat
  end.

(** The arguments of the earliest [export_all] call of a trace. *)
Fixpoint first_export (tr : list Event) : option (Z * Z) :=
  match tr with
  | [] => None
  | EExportAll a b :: _ => Some (a, b)
  | _ :: tr' => first_export tr'
  end.

(** The ranges [export_all] was asked for, oldest first. *)
Fixpoint exports_of (tr : list Event) : list (Z * Z) :=
  match tr with
  | [] => []
  | EExportAll a b :: tr' => (a, b) :: exports_of tr'
  | _ :: tr' => exports_of tr'
  end.

(** A call of [get_current_block_number] or of [export_all]. *)
Definition is_query (ev : Event) : bool :=
  match ev with
  | EGetCurrentBlockNumber | EExportAll _ _ => true
  | _ => false
  end.

(** The integers written to [file], oldest first. *)
Fixpoint written_values (file : string) (tr : list Event) : list Z :=
  match tr with
  | [] => []
  | EWrite f content :: tr' =>
      match Py.int content with
      | Ret v => if bool_decide (f = file) then v :: written_values file tr'
                 else written_values file tr'
      | _ => written_values file tr'
      end
  | _ :: tr' => written_values file tr'
  end.

(** [l] never decreases from one element to the next. *)
Fixpoint non_decreasing (l : list Z) : Prop :=
  match l with
  | [] => True
  | x :: l' => match l' with
               | [] => True
               | y :: _ => x <= y /\ non_decreasing l'
               end
  end.

(** Modelled from the spec: the adapter classes
    ([streamer_adapter_stub.py] and the chain-specific ones) are not part
    of the sources at hand.  The specification gives the contract the
    streamer relies on: [open] acquires resources and its failure is
    fatal, [get_current_block_number] and [export_all] may raise,
    [close] releases resources.  An adapter is an object with a private
    state of type [A]; every method may change that state, and none of
    them touches the [Streamer] object or the files the streamer
    writes. *)
Class StreamerAdapter (A : Type) : Type := {
  open : A -> option PyExc * A;
  close : A -> A;
  get_current_block_number : A -> (PyExc + Z) * A;
  export_all : Z -> Z -> A -> option PyExc * A
}.

(** A state-and-exception monad.  The state survives a raised exception,
    as the heap of a Python program does. *)
Definition M (S X : Type) : Type := S -> Res X * S.

Definition ret {S X} (x : X) : M S X := fun s => (Ret x, s).

Definition raise {S X} (e : PyExc) : M S X := fun s => (Exc e, s).

Definition bind {S X Y} (c : M S X) (k : X -> M S Y) : M S Y :=
  fun s =>
    match c s with
    | (Ret x, s') => k x s'
    | (Exc e, s') => (Exc e, s')
    | (Timeout, s') => (Timeout, s')
    end.

Notation "x <- c1 ;; c2" := (bind c1 (fun x => c2))
  (at level 100, c1 at next level, right associativity).
Notation "c1 ;; c2" := (bind c1 (fun _ => c2))
  (at level 100, right associativity).

(** [try: c  except Exception as e: h e]. *)
Definition try_except {S X} (c : M S X) (h : PyExc -> M S X) : M S X :=
  fun s =>
    match c s with
    | (Exc e, s') => if is_Exception e then h e s' else (Exc e, s')
    | r => r
    end.

(** [try: c  finally: f].  An exception raised by [f] replaces the one
    that was on its way. *)
Definition try_finally {S X} (c : M S X) (f : M S unit) : M S X :=
  fun s =>
    match c s with
    | (Timeout, s') => (Timeout, s')
    | (r, s') =>
        match f s' with
        | (Ret _, s'') => (r, s'')
        | (Exc e, s'') => (Exc e, s'')
        | (Timeout, s'') => (Timeout, s'')
        end
    end.

Definition newline : string := String "010"%char EmptyString.

Section Streamer.

Context {A : Type} `{StreamerAdapter A}.

(** Everything outside the [Streamer] object: the files, the adapter
    object, the effects so far and the identifier of the process. *)
Record World : Type := mkWorld {
  files : Files;
  adapter : A;
  trace : list Event;
  getpid : Z
}.

Definition emit (ev : Event) (w : World) : World :=
  mkWorld (files w) (adapter w) (trace w ++ [ev]) (getpid w).

(** *** Module-level functions *)

Definition os_path_isfile (file : string) : M World bool :=
  fun w => (Ret (isfile file (files w)), w).

Definition write_to_file (file content : string) : M World unit :=
  fun w =>
    (Ret tt,
     mkWorld (<[file := content]> (files w)) (adapter w)
             (trace w ++ [EWrite file content]) (getpid w)).

Definition delete_file (file : string) : M World unit :=
  fun w =>
    (Ret tt,
     mkWorld (delete file (files w)) (adapter w)
             (trace w ++ [ERemove file]) (getpid w)).

Definition write_last_synced_block (file : string) (last_synced_block : Z)
  : M World unit :=
  write_to_file file (Py.str last_synced_block +:+ newline).

Definition init_last_synced_block_file (start_block : Z)
    (last_synced_block_file : string) : M World unit :=
  exists_ <- os_path_isfile last_synced_block_file ;;
  if exists_ : bool then
    raise (ValueError
             (last_synced_block_file +:+
              " should not exist if --start-block option is specified. " +:+
              "Either remove the " +:+ last_synced_block_file +:+
              " file or the --start-block option."))
  else write_last_synced_block last_synced_block_file start_block.

Definition read_last_synced_block (file : string) : M World Z :=
  fun w =>
    match read_file file (files w) with
    | Ret content => (Py.int content, w)
    | Exc e => (Exc e, w)
    | Timeout => (Timeout, w)
    end.

(** *** The class [Streamer] *)

(** The attributes of a [Streamer] object.  [blockchain_streamer_adapter]
    refers to the adapter object, whose state is the [adapter] of the
    world. *)
Record Streamer : Type := mkStreamer {
  last_synced_block_file : string;
  lag : Z;
  start_block : option Z;
  end_block : option Z;
  period_seconds : Z;
  block_batch_size : Z;
  ramp_up_blocks : Z;
  processed_blocks_count : Z;
  retry_errors : bool;
  pid_file : option string;
  last_synced_block : Z
}.

(** [x or 0] for an optional integer [x]. *)
Definition or_zero (x : option Z) : Z :=
  match x with
  | None => 0
  | Some v => if v =? 0 then 0 else v
  end.

(** [Streamer.__init__]; the adapter argument is the adapter of the
    world. *)
Definition Streamer_init (last_synced_block_file : string) (lag : Z)
    (start_block end_block : option Z) (period_seconds block_batch_size
    ramp_up_blocks : Z) (retry_errors : bool) (pid_file : option string)
  : M World Streamer :=
  exists_ <- os_path_isfile last_synced_block_file ;;
  (if bool_decide (start_block ≠ None) || negb exists_ then
     init_last_synced_block_file (or_zero start_block - 1)
                                 last_synced_block_file
   else ret tt) ;;
  last_synced_block <- read_last_synced_block last_synced_block_file ;;
  ret (mkStreamer last_synced_block_file lag start_block end_block
                  period_seconds block_batch_size ramp_up_blocks 0
                  retry_errors pid_file last_synced_block).

(** A running streamer: the object and the world around it. *)
Record Machine : Type := mkMachine {
  self : Streamer;
  world : World
}.

(** A module-level function called from a method. *)
Definition call {X} (c : M World X) : M Machine X :=
  fun m => let (r, w) := c (world m) in (r, mkMachine (self m) w).

Definition get_self : M Machine Streamer := fun m => (Ret (self m), m).

Definition set_last_synced_block (v : Z) : M Machine unit :=
  fun m =>
    let s := self m in
    (Ret tt,
     mkMachine
       (mkStreamer (last_synced_block_file s) (lag s) (start_block s)
                   (end_block s) (period_seconds s) (block_batch_size s)
                   (ramp_up_blocks s) (processed_blocks_count s)
                   (retry_errors s) (pid_file s) v)
       (world m)).

Definition add_processed_blocks_count (n : Z) : M Machine unit :=
  fun m =>
    let s := self m in
    (Ret tt,
     mkMachine
       (mkStreamer (last_synced_block_file s) (lag s) (start_block s)
                   (end_block s) (period_seconds s) (block_batch_size s)
                   (ramp_up_blocks s) (processed_blocks_count s + n)
                   (retry_errors s) (pid_file s) (last_synced_block s))
       (world m)).

Definition with_adapter (w : World) (ev : Event) (a : A) : World :=
  mkWorld (files w) a (trace w ++ [ev]) (getpid w).

Definition adapter_open : M Machine unit :=
  call (fun w =>
          let (r, a) := open (adapter w) in
          (match r with Some e => Exc e | None => Ret tt end,
           with_adapter w EOpen a)).

Definition adapter_close : M Machine unit :=
  call (fun w => (Ret tt, with_adapter w EClose (close (adapter w)))).

Definition adapter_get_current_block_number : M Machine Z :=
  call (fun w =>
          let (r, a) := get_current_block_number (adapter w) in
          (match r with inl e => Exc e | inr n => Ret n end,
           with_adapter w EGetCurrentBlockNumber a)).

Definition adapter_export_all (start_block end_block : Z) : M Machine unit :=
  call (fun w =>
          let (r, a) := export_all start_block end_block (adapter w) in
          (match r with Some e => Exc e | None => Ret tt end,
           with_adapter w (EExportAll start_block end_block) a)).

Definition time_sleep (seconds : Z) : M Machine unit :=
  call (fun w => (Ret tt, emit (ESleep seconds) w)).

(** [Streamer._calculate_target_block]. *)
Definition calculate_target_block (s : Streamer)
    (current_block last_synced_block block_batch_size : Z) : Z :=
  let target_block := current_block - lag s in
  let target_block :=
    Z.min target_block (last_synced_block + block_batch_size) in
  let target_block :=
    match end_block s with
    | Some e => Z.min target_block e
    | None => target_block
    end in
  target_block.

(** The batch width chosen at the start of [_sync_cycle]:
    [ramp_up_blocks and ramp_up_blocks > 0 and
     processed_blocks_count <= ramp_up_blocks]. *)
Definition effective_batch_size (s : Streamer) : Z :=
  if negb (ramp_up_blocks s =? 0) && (0 <? ramp_up_blocks s)
     && (processed_blocks_count s <=? ramp_up_blocks s)
  then 1
  else block_batch_size s.

(** [Streamer._sync_cycle]. *)
Definition sync_cycle : M Machine Z :=
  current_block <- adapter_get_current_block_number ;;
  s <- get_self ;;
  let block_batch_size := effective_batch_size s in
  let target_block :=
    calculate_target_block s current_block (last_synced_block s)
                           block_batch_size in
  let blocks_to_sync := Z.max (target_block - last_synced_block s) 0 in
  (if negb (blocks_to_sync =? 0) then
     adapter_export_all (last_synced_block s + 1) target_block ;;
     call (write_last_synced_block (last_synced_block_file s)
                                   target_block) ;;
     set_last_synced_block target_block ;;
     add_processed_blocks_count blocks_to_sync
   else ret tt) ;;
  ret blocks_to_sync.

(** The condition of the [while] in [_do_stream]. *)
Definition keep_streaming (s : Streamer) : bool :=
  match end_block s with
  | None => true
  | Some e => last_synced_block s <? e
  end.

(** [Streamer._do_stream].  The loop has no bound of its own; [fuel]
    bounds the number of iterations that are followed, and the result
    is [Timeout] when they are used up. *)
Fixpoint do_stream (fuel : nat) : M Machine unit :=
  match fuel with
  | O => fun m => (Timeout, m)
  | S fuel' =>
      s <- get_self ;;
      if keep_streaming s then
        synced_blocks <-
          try_except sync_cycle
            (fun e => if negb (retry_errors s) then raise e else ret 0) ;;
        (if synced_blocks <=? 0 then time_sleep (period_seconds s)
         else ret tt) ;;
        do_stream fuel'
      else ret tt
  end.

(** The statements of [stream] before the loop: the pid file is
    written and the adapter opened. *)
Definition acquire (s : Streamer) : M Machine unit :=
  (match pid_file s with
   | Some f => pid <- call (fun w => (Ret (getpid w), w)) ;;
               call (write_to_file f (Py.str pid))
   | None => ret tt
   end) ;;
  adapter_open.

(** The [finally] block of [stream]. *)
Definition release (s : Streamer) : M Machine unit :=
  adapter_close ;;
  match pid_file s with
  | Some f => call (delete_file f)
  | None => ret tt
  end.

(** [Streamer.stream]. *)
Definition stream (fuel : nat) : M Machine unit :=
  s <- get_self ;;
  try_finally (acquire s ;; do_stream fuel) (release s).

(** *** The ways a cycle can go *)

(** The object after a cycle that synced up to [target_block]. *)
Definition advanced (s : Streamer) (target_block blocks_to_sync : Z)
  : Streamer :=
  mkStreamer (last_synced_block_file s) (lag s) (start_block s)
             (end_block s) (period_seconds s) (block_batch_size s)
             (ramp_up_blocks s) (processed_blocks_count s + blocks_to_sync)
             (retry_errors s) (pid_file s) target_block.

(** The target of the cycle run by [s] when the head is
    [current_block]. *)
Definition target_of (s : Streamer) (current_block : Z) : Z :=
  calculate_target_block s current_block (last_synced_block s)
                         (effective_batch_size s).

Inductive cycle (m : Machine) : Res Z -> Machine -> Prop :=
  | cycle_head_raises e a1 :
      get_current_block_number (adapter (world m)) = (inl e, a1) ->
      cycle m (Exc e)
        (mkMachine (self m)
           (with_adapter (world m) EGetCurrentBlockNumber a1))
  | cycle_idle h a1 :
      get_current_block_number (adapter (world m)) = (inr h, a1) ->
      target_of (self m) h <= last_synced_block (self m) ->
      cycle m (Ret 0)
        (mkMachine (self m)
           (with_adapter (world m) EGetCurrentBlockNumber a1))
  | cycle_export_raises h a1 e a2 :
      let s := self m in
      let t := target_of s h in
      let w1 := with_adapter (world m) EGetCurrentBlockNumber a1 in
      get_current_block_number (adapter (world m)) = (inr h, a1) ->
      last_synced_block s < t ->
      export_all (last_synced_block s + 1) t a1 = (Some e, a2) ->
      cycle m (Exc e)
        (mkMachine s
           (with_adapter w1 (EExportAll (last_synced_block s + 1) t) a2))
  | cycle_synced h a1 a2 :
      let s := self m in
      let t := target_of s h in
      let w1 := with_adapter (world m) EGetCurrentBlockNumber a1 in
      let w2 :=
        with_adapter w1 (EExportAll (last_synced_block s + 1) t) a2 in
      get_current_block_number (adapter (world m)) = (inr h, a1) ->
      last_synced_block s < t ->
      export_all (last_synced_block s + 1) t a1 = (None, a2) ->
      cycle m (Ret (t - last_synced_block s))
        (mkMachine (advanced s t (t - last_synced_block s))
           (mkWorld
              (<[last_synced_block_file s := Py.str t +:+ newline]>
                 (files w2))
              a2
              (trace w2 ++
                 [EWrite (last_synced_block_file s) (Py.str t +:+ newline)])
              (getpid w2))).

(** [k] iterations of the loop of [_do_stream] in a row, none of which
    raised. *)
Inductive iterations : nat -> Machine -> Machine -> Prop :=
  | iterations_O m : iterations O m m
  | iterations_S k m n m1 m2 m3 :
      keep_streaming (self m) = true ->
      sync_cycle m = (Ret n, m1) ->
      (if n <=? 0 then time_sleep (period_seconds (self m)) else ret tt) m1
        = (Ret tt, m2) ->
      iterations k m2 m3 ->
      iterations (S k) m m3.

(** The state of the checkpoint when the loop that started in [m0] has
    come to [m]: the file holds the block the object remembers, and
    the values written since [m0], preceded by the block [m0] started
    from, never decrease and stay below what the file holds now. *)
Definition history_ok (m0 m : Machine) : Prop :=
  let file := last_synced_block_file (self m0) in
  last_synced_block_file (self m) = file
  /\ read_last_synced_block file (world m)
     = (Ret (last_synced_block (self m)), world m)
  /\ exists evs,
       trace (world m) = trace (world m0) ++ evs
       /\ non_decreasing
            (last_synced_block (self m0) :: written_values file evs)
       /\ Forall (fun v => v <= last_synced_block (self m))
                 (last_synced_block (self m0) :: written_values file evs).

(** [s'] has the arguments [s] was constructed with: the two differ at
    most in [last_synced_block] and [processed_blocks_count]. *)
Definition same_config (s s' : Streamer) : Prop :=
  last_synced_block_file s' = last_synced_block_file s
  /\ lag s' = lag s
  /\ start_block s' = start_block s
  /\ end_block s' = end_block s
  /\ period_seconds s' = period_seconds s
  /\ block_batch_size s' = block_batch_size s
  /\ ramp_up_blocks s' = ramp_up_blocks s
  /\ retry_errors s' = retry_errors s
  /\ pid_file s' = pid_file s.

End Streamer.

Arguments World A : clear implicits.
Arguments Machine A : clear implicits.

(** ** A scripted adapter *)

(** A test double in the manner of [unittest.mock]: the answers of
    [get_current_block_number] and of [export_all] are read off two
    scripts; when a script is used up the head is [0] and exports
    succeed. *)
Record Script : Type := mkScript {
  heads : list (PyExc + Z);
  exports : list (option PyExc)
}.

#[global] Instance ScriptAdapter : StreamerAdapter Script := {|
  open s := (None, s);
  close s := s;
  get_current_block_number s :=
    match heads s with
    | [] => (inr 0, s)
    | h :: t => (h, mkScript t (exports s))
    end;
  export_all _ _ s :=
    match exports s with
    | [] => (None, s)
    | r :: t => (r, mkScript (heads s) t)
    end
|}.

(** A second test double: an adapter whose [open] raises the exception
    it was built with; the other methods do nothing and the head is
    [0]. *)
Record Offline : Type := mkOffline { refusal : PyExc }.

#[global] Instance OfflineAdapter : StreamerAdapter Offline := {|
  open s := (Some (refusal s), s);
  close s := s;
  get_current_block_number s := (inr 0, s);
  export_all _ _ s := (None, s)
|}.

(** A streamer object with the default arguments of [__init__], given its
    checkpoint, its bounds and its batching. *)
Definition streamer_with (last_synced : Z) (lag_ : Z) (end_ : option Z)
    (batch ramp_up processed : Z) (retry : bool) : Streamer :=
  mkStreamer "last_synced_block.txt" lag_ None end_ 10 batch ramp_up
             processed retry None last_synced.

Definition world_with (fs : Files) (s : Script) : World Script :=
  mkWorld fs s [] 4242.

Definition checkpoint_at (v : Z) : Files :=
  {[ "last_synced_block.txt" := Py.str v +:+ newline ]}.

(** * Properties *)

(** ** [int] undoes [str] *)

Section Builtins.

Import Decimal.

(** The numeral of a non-empty digit sequence starts with a digit. *)
Lemma string_of_uint_head (d : uint) :
  d <> Nil ->
  exists c r, NilEmpty.string_of_uint d = String c r /\ Py.digit_char c.
Proof.
  destruct d; intros Hd; try congruence; simpl;
    eexists _, _; (split; [reflexivity | by eexists]).
Qed.

Lemma digits_cons (c c' : ascii) (f : uint -> uint) (r : string) :
  Py.digit c = Some f -> c' <> "_"%char ->
  Py.digits (String c (String c' r)) = f <$> Py.digits (String c' r).
Proof.
  intros Hf Hc. cbn [Py.digits]. rewrite Hf.
  destruct c' as [[] [] [] [] [] [] [] []]; try reflexivity.
  by destruct Hc.
Qed.

Lemma digits_string_of_uint (d : uint) :
  d <> Nil -> Py.digits (NilEmpty.string_of_uint d) = Some d.
Proof.
  induction d as [|d IH|d IH|d IH|d IH|d IH|d IH|d IH|d IH|d IH|d IH];
    intros Hnil; try congruence;
    (assert (d = Nil \/ d <> Nil) as [->|Hd]
       by (destruct d; (by left) || (by right));
     [reflexivity|];
     specialize (IH Hd);
     destruct (string_of_uint_head d Hd) as (c & r & Hs & [f Hf]);
     cbn [NilEmpty.string_of_uint]; rewrite Hs in IH |- *;
     erewrite digits_cons;
     [ by rewrite IH
     | reflexivity
     | intros ->; discriminate Hf ]).
Qed.

Lemma literal_unsigned (c : ascii) (r : string) :
  Py.digit_char c ->
  Py.literal (String c r) = Pos <$> Py.digits (String c r).
Proof.
  intros [f Hf]. unfold Py.literal.
  destruct c as [[] [] [] [] [] [] [] []]; try reflexivity; discriminate Hf.
Qed.

Lemma rstrip_app_newline (s : string) :
  Py.rstrip (s +:+ newline) = Py.rstrip s.
Proof.
  induction s as [|c s IH]; [reflexivity|].
  change (String c s +:+ newline) with (String c (s +:+ newline)).
  cbn [Py.rstrip]. by rewrite IH.
Qed.

Lemma rstrip_no_space (s : string) : Py.no_space s = true -> Py.rstrip s = s.
Proof.
  induction s as [|c s IH]; [reflexivity|].
  cbn [Py.no_space Py.rstrip]. intros [Hc Hs]%andb_true_iff.
  rewrite (IH Hs). destruct s; [|reflexivity].
  by destruct (Py.isspace c).
Qed.

Lemma lstrip_no_space (s : string) : Py.no_space s = true -> Py.lstrip s = s.
Proof.
  destruct s as [|c s]; [reflexivity|].
  cbn [Py.no_space Py.lstrip]. intros [Hc Hs]%andb_true_iff.
  by destruct (Py.isspace c).
Qed.

Lemma strip_line (s : string) :
  Py.no_space s = true -> Py.strip (s +:+ newline) = s.
Proof.
  intros Hs. unfold Py.strip.
  by rewrite rstrip_app_newline, rstrip_no_space, lstrip_no_space.
Qed.

Lemma no_space_string_of_uint (d : uint) :
  Py.no_space (NilEmpty.string_of_uint d) = true.
Proof. induction d; simpl; auto. Qed.

Lemma no_space_str (n : Z) : Py.no_space (Py.str n) = true.
Proof.
  unfold Py.str, NilZero.string_of_int, NilZero.string_of_uint.
  destruct (Z.to_int n) as [d|d]; destruct d;
    try reflexivity; cbn [Py.no_space]; try apply no_space_string_of_uint;
    rewrite no_space_string_of_uint; reflexivity.
Qed.

Lemma literal_str (n : Z) : Py.literal (Py.str n) = Some (Z.to_int n).
Proof.
  destruct n as [|p|p]; [reflexivity | |];
    unfold Py.str; cbn [Z.to_int NilZero.string_of_int];
    pose proof (DecimalPos.Unsigned.to_uint_nonnil p) as Hnil;
    assert (NilZero.string_of_uint (Pos.to_uint p)
            = NilEmpty.string_of_uint (Pos.to_uint p)) as ->
      by (destruct (Pos.to_uint p); (reflexivity || by destruct Hnil)).
  - destruct (string_of_uint_head _ Hnil) as (c & r & Hs & Hc).
    rewrite Hs, literal_unsigned by done.
    by rewrite <- Hs, digits_string_of_uint.
  - cbn [Py.literal]. by rewrite digits_string_of_uint.
Qed.

(** Parsing the line that [str] and a newline make gives the number
    back. *)
Lemma int_str_line (n : Z) : Py.int (Py.str n +:+ newline) = Ret n.
Proof.
  unfold Py.int. rewrite strip_line by apply no_space_str.
  by rewrite literal_str, DecimalZ.of_to.
Qed.

End Builtins.

(** ** One cycle *)

Section Cycle.

Context {A : Type} `{StreamerAdapter A}.
Implicit Types (m : Machine A) (s : Streamer) (w : World A).

(** Every run of [_sync_cycle] is one of the four cases of [cycle]. *)
Lemma sync_cycle_cycle m : cycle m (sync_cycle m).1 (sync_cycle m).2.
Proof.
  destruct m as [s w].
  destruct (get_current_block_number (adapter w)) as [[e|h] a1] eqn:Hh.
  - unfold sync_cycle, bind, adapter_get_current_block_number, call.
    cbn [world self]. rewrite Hh. cbn.
    by apply (cycle_head_raises (mkMachine s w)).
  - unfold sync_cycle, bind, adapter_get_current_block_number, call, get_self.
    cbn [world self]. rewrite Hh. cbn [self world fst snd].
    fold (target_of s h).
    destruct (Z.max_spec (target_of s h - last_synced_block s) 0)
      as [[Hlt ->]|[Hle ->]].
    + cbn. apply (cycle_idle (mkMachine s w) h a1); [done|cbn; lia].
    + destruct (Z.eqb_spec (target_of s h - last_synced_block s) 0)
        as [Heq|Hne].
      * rewrite Heq. cbn.
        apply (cycle_idle (mkMachine s w) h a1); [done|cbn; lia].
      * cbn [negb]. unfold adapter_export_all, call.
        cbn [world self adapter with_adapter].
        destruct (export_all (last_synced_block s + 1) (target_of s h) a1)
          as [[e|] a2] eqn:He; cbn.
        -- apply (cycle_export_raises (mkMachine s w) h a1 e a2);
             cbn; [done|lia|done].
        -- apply (cycle_synced (mkMachine s w) h a1 a2);
             cbn; [done|lia|done].
Qed.

Lemma sync_cycle_inv m r m' : sync_cycle m = (r, m') -> cycle m r m'.
Proof. intros E. pose proof (sync_cycle_cycle m) as C. by rewrite E in C. Qed.

End Cycle.

(** ** The target of a cycle *)

Section Target.

Context {A : Type} `{StreamerAdapter A}.
Implicit Types (m : Machine A) (s : Streamer).

(** C1.  [_calculate_target_block] returns the head minus the lag,
    clamped from above by the last synced block plus the batch width
    and then, when an end block is set, by the end block.  The number
    of blocks a cycle reports is [max (target - last_synced_block) 0]
    for the target of that cycle, and is never negative. *)
Theorem calculate_target_block_clamped s (current_block last width : Z) :
  calculate_target_block s current_block last width
  = match end_block s with
    | Some e => Z.min (Z.min (current_block - lag s) (last + width)) e
    | None => Z.min (current_block - lag s) (last + width)
    end
  /\ 0 <= Z.max (calculate_target_block s current_block last width - last) 0
  /\ forall m h a1 n,
       get_current_block_number (adapter (world m)) = (inr h, a1) ->
       (sync_cycle m).1 = Ret n ->
       let target :=
         calculate_target_block (self m) h (last_synced_block (self m))
                                (effective_batch_size (self m)) in
       n = Z.max (target - last_synced_block (self m)) 0 /\ 0 <= n.
Proof.
  split; [|split].
  - unfold calculate_target_block. by destruct (end_block s).
  - lia.
  - intros m h a1 n Hh Hn target.
    pose proof (sync_cycle_cycle m) as C. rewrite Hn in C.
    inversion C as [| h' a1' Hh' Hle | | h' a1' a2 s0 t w1 w2 Hh' Hlt He];
      subst; rewrite Hh in Hh'; injection Hh' as <- <-;
      repeat match goal with x := _ |- _ => subst x end;
      unfold target_of in *; lia.
Qed.

End Target.

(** C1 at the head 150 for a streamer at block 99 with lag 10 and batches
    of 20. *)
Lemma calculate_target_block_clamped_witness :
  (sync_cycle
     (mkMachine (streamer_with 99 10 None 20 0 0 true)
        (world_with (checkpoint_at 99) (mkScript [inr 150] [])))).1
  = Ret 20
  /\ 20 = Z.max (119 - 99) 0 /\ 0 <= 20.
Proof.
  split; [reflexivity|].
  exact (proj2 (proj2 (calculate_target_block_clamped
                         (streamer_with 99 10 None 20 0 0 true) 150 99 20))
           (mkMachine (streamer_with 99 10 None 20 0 0 true)
              (world_with (checkpoint_at 99) (mkScript [inr 150] [])))
           150 (mkScript [] []) 20 eq_refl eq_refl).
Defined.

(** ** Scenario A *)

(** C2, as stated, fails: at block 99 with the head at 150, a lag of 10,
    batches of 20 and no end block, the target is not 120 and the cycle
    does not sync 21 blocks. *)
Lemma scenario_A_not_120 :
  let s := streamer_with 99 10 None 20 0 0 true in
  let m := mkMachine s (world_with (checkpoint_at 99)
                                   (mkScript [inr 150] [])) in
  calculate_target_block s 150 99 20 <> 120
  /\ Z.max (calculate_target_block s 150 99 20 - 99) 0 <> 21
  /\ (sync_cycle m).1 <> Ret 21.
Proof. repeat split; intros E; vm_compute in E; discriminate E. Qed.

(** C2, amended.  In scenario A the batch of 20 blocks starting after
    block 99 ends at block 119: the target is 119 and 20 blocks are
    synced; the cycle exports the blocks 100 to 119 and writes 119 as the
    checkpoint. *)
Theorem scenario_A :
  let s := streamer_with 99 10 None 20 0 0 true in
  let m := mkMachine s (world_with (checkpoint_at 99)
                                   (mkScript [inr 150] [])) in
  calculate_target_block s 150 99 20 = 119
  /\ Z.max (calculate_target_block s 150 99 20 - 99) 0 = 20
  /\ effective_batch_size s = 20
  /\ (sync_cycle m).1 = Ret 20
  /\ trace (world (sync_cycle m).2)
     = [EGetCurrentBlockNumber; EExportAll 100 119;
        EWrite "last_synced_block.txt" ("119" +:+ newline)]
  /\ last_synced_block (self (sync_cycle m).2) = 119.
Proof. repeat split; reflexivity. Qed.

(** ** Ramp-up *)

(** C3, as stated, fails: with [ramp_up_blocks = 0], the default, the
    counter starts at 0 <= 0, and the width is [block_batch_size]. *)
Lemma ramp_up_zero_is_off :
  ~ (forall s : Streamer,
       0 <= ramp_up_blocks s ->
       processed_blocks_count s <= ramp_up_blocks s ->
       effective_batch_size s = 1).
Proof.
  intros Hall.
  assert (effective_batch_size (streamer_with 0 0 None 10 0 0 true) = 10)
    as Hten by reflexivity.
  rewrite Hall in Hten by (cbn; lia). discriminate Hten.
Qed.

Section RampUp.

Context {A : Type} `{StreamerAdapter A}.
Implicit Types (m : Machine A) (s : Streamer).

(** C3, amended.  With [ramp_up_blocks > 0] the width is 1 as long as
    [processed_blocks_count <= ramp_up_blocks], and such a cycle syncs
    at most one block; once [processed_blocks_count > ramp_up_blocks]
    the width is [block_batch_size]; and with [ramp_up_blocks <= 0]
    there is no ramp-up, the width is [block_batch_size] throughout. *)
Theorem effective_batch_size_ramp_up s :
  (0 < ramp_up_blocks s ->
   processed_blocks_count s <= ramp_up_blocks s ->
   effective_batch_size s = 1
   /\ forall m n, self m = s -> (sync_cycle m).1 = Ret n -> 0 <= n <= 1)
  /\ (ramp_up_blocks s < processed_blocks_count s ->
      effective_batch_size s = block_batch_size s)
  /\ (ramp_up_blocks s <= 0 ->
      effective_batch_size s = block_batch_size s).
Proof.
  assert (0 < ramp_up_blocks s ->
          processed_blocks_count s <= ramp_up_blocks s ->
          effective_batch_size s = 1) as Hon.
  { intros Hr Hp. unfold effective_batch_size.
    destruct (Z.eqb_spec (ramp_up_blocks s) 0); [lia|].
    destruct (Z.ltb_spec 0 (ramp_up_blocks s)); [|lia].
    by destruct (Z.leb_spec (processed_blocks_count s) (ramp_up_blocks s));
      [|lia]. }
  split; [|split].
  - intros Hr Hp. split; [by apply Hon|].
    intros m n <- Hn.
    pose proof (sync_cycle_cycle m) as C. rewrite Hn in C.
    inversion C; subst; [lia|].
    repeat match goal with x := _ |- _ => subst x end.
    unfold target_of, calculate_target_block in *. rewrite Hon by done.
    destruct (end_block (self m)); lia.
  - intros Hp. unfold effective_batch_size.
    destruct (Z.leb_spec (processed_blocks_count s) (ramp_up_blocks s));
      [lia|]. by rewrite andb_false_r.
  - intros Hr. unfold effective_batch_size.
    destruct (Z.ltb_spec 0 (ramp_up_blocks s)); [lia|].
    by rewrite andb_false_r.
Qed.

End RampUp.

(** C3 amended, during the ramp-up of a streamer that has synced 3 of its
    5 ramp-up blocks. *)
Lemma effective_batch_size_ramp_up_witness :
  effective_batch_size (streamer_with 0 0 None 10 5 3 true) = 1.
Proof.
  refine (proj1 (proj1 (effective_batch_size_ramp_up (A := Script)
                          (streamer_with 0 0 None 10 5 3 true)) _ _));
    cbn; lia.
Defined.

(** ** The checkpoint file *)

Section Checkpoint.

Context {A : Type} `{StreamerAdapter A}.
Implicit Types (w : World A) (file : string).

Lemma read_after_write file (v : Z) w :
  let w' := (write_last_synced_block file v w).2 in
  read_last_synced_block file w' = (Ret v, w').
Proof.
  unfold read_last_synced_block, read_file. cbn.
  by rewrite lookup_insert_eq, int_str_line.
Qed.

(** Reading depends on the files only. *)
Lemma read_same_files file (v : Z) w w' :
  files w' = files w ->
  read_last_synced_block file w = (Ret v, w) ->
  read_last_synced_block file w' = (Ret v, w').
Proof.
  unfold read_last_synced_block. intros -> Hr.
  destruct (read_file file (files w)); [|done..].
  injection Hr as Hr. by rewrite Hr.
Qed.

(** C10.  [read_last_synced_block] after [write_last_synced_block] on
    the same file returns the integer that was written, negative ones
    included: [int] drops the newline that the write appended. *)
Theorem write_read_last_synced_block file (v : Z) w :
  (write_last_synced_block file v w).1 = Ret tt
  /\ files (write_last_synced_block file v w).2 !! file
     = Some (Py.str v +:+ newline)
  /\ Py.int (Py.str v +:+ newline) = Ret v
  /\ read_last_synced_block file (write_last_synced_block file v w).2
     = (Ret v, (write_last_synced_block file v w).2).
Proof.
  repeat split.
  - cbn. by rewrite lookup_insert_eq.
  - apply int_str_line.
  - apply read_after_write.
Qed.

(** C6.  When a file exists at the path, [init_last_synced_block_file]
    raises [ValueError] and the world is as it was, and so does the
    constructor called with a start block; when none exists, the
    position passed in is written there and is what
    [read_last_synced_block] then returns. *)
Theorem init_last_synced_block_file_guard (start : Z) file w :
  (isfile file (files w) = true ->
   (exists msg,
      init_last_synced_block_file start file w = (Exc (ValueError msg), w))
   /\ forall lag sb end_ period batch ramp retry pidf,
        exists msg,
          Streamer_init file lag (Some sb) end_ period batch ramp retry
                        pidf w
          = (Exc (ValueError msg), w))
  /\ (isfile file (files w) = false ->
      let w' := (init_last_synced_block_file start file w).2 in
      (init_last_synced_block_file start file w).1 = Ret tt
      /\ files w' = <[file := Py.str start +:+ newline]> (files w)
      /\ read_last_synced_block file w' = (Ret start, w')).
Proof.
  split.
  - intros Hf. split.
    + eexists. unfold init_last_synced_block_file, bind, os_path_isfile.
      by rewrite Hf.
    + intros. eexists.
      unfold Streamer_init, bind, os_path_isfile. rewrite Hf. cbn.
      unfold init_last_synced_block_file, bind, os_path_isfile.
      by rewrite Hf.
  - intros Hf.
    unfold init_last_synced_block_file, bind, os_path_isfile.
    rewrite Hf. repeat split. apply read_after_write.
Qed.

End Checkpoint.

(** C6 on a path that holds the checkpoint 5 and on a path that holds
    nothing. *)
Lemma init_last_synced_block_file_guard_witness :
  (exists msg,
     init_last_synced_block_file 7 "last_synced_block.txt"
       (world_with (checkpoint_at 5) (mkScript [] []))
     = (Exc (ValueError msg), world_with (checkpoint_at 5) (mkScript [] [])))
  /\ files (init_last_synced_block_file 7 "last_synced_block.txt"
              (world_with ∅ (mkScript [] []))).2
     = <["last_synced_block.txt" := Py.str 7 +:+ newline]> ∅.
Proof.
  split.
  - exact (proj1 (proj1 (init_last_synced_block_file_guard 7
                           "last_synced_block.txt"
                           (world_with (checkpoint_at 5) (mkScript [] [])))
                    eq_refl)).
  - exact (proj1 (proj2 (proj2 (init_last_synced_block_file_guard 7
                                  "last_synced_block.txt"
                                  (world_with ∅ (mkScript [] [])))
                           eq_refl))).
Defined.

(** ** Failed cycles *)

Section Failure.

Context {A : Type} `{StreamerAdapter A}.
Implicit Types (m : Machine A) (s : Streamer).

Lemma count_events_app (p : Event -> bool) (l l' : list Event) :
  count_events p (l ++ l') = (count_events p l + count_events p l')%nat.
Proof. induction l as [|ev l IH]; cbn; [done|]. rewrite IH. lia. Qed.

(** The events a cycle adds to the trace. *)
Lemma cycle_trace m r m' :
  cycle m r m' ->
  exists evs,
    trace (world m') = trace (world m) ++ evs
    /\ count_events is_close evs = O
    /\ (count_events is_write evs <> O ->
        exists h a1 n,
          get_current_block_number (adapter (world m)) = (inr h, a1)
          /\ export_all (last_synced_block (self m) + 1)
                        (target_of (self m) h) a1
             = (None, adapter (world m'))
          /\ r = Ret n
          /\ evs = [EGetCurrentBlockNumber;
                    EExportAll (last_synced_block (self m) + 1)
                               (target_of (self m) h);
                    EWrite (last_synced_block_file (self m))
                           (Py.str (target_of (self m) h) +:+ newline)]).
Proof.
  intros C. destruct C.
  - eexists [_]. by cbn.
  - eexists [_]. by cbn.
  - eexists [_; _]. cbn. by rewrite <- app_assoc.
  - eexists [_; _; _]. cbn. rewrite <- !app_assoc. repeat split.
    intros _. by exists h, a1, (t - last_synced_block s).
Qed.

(** C4.  A cycle that raises, be it in the head query or in the
    export, leaves the object and the files as they were and writes
    nothing; and a cycle that writes the checkpoint does it as its last
    step, after an export of exactly that range that did not raise. *)
Theorem failed_cycle_leaves_state m r m' :
  sync_cycle m = (r, m') ->
  (forall e, r = Exc e ->
     self m' = self m
     /\ files (world m') = files (world m)
     /\ exists evs, trace (world m') = trace (world m) ++ evs
                    /\ count_events is_write evs = O)
  /\ (forall evs,
        trace (world m') = trace (world m) ++ evs ->
        count_events is_write evs <> O ->
        exists h a1 n,
          get_current_block_number (adapter (world m)) = (inr h, a1)
          /\ export_all (last_synced_block (self m) + 1)
                        (target_of (self m) h) a1
             = (None, adapter (world m'))
          /\ r = Ret n
          /\ evs = [EGetCurrentBlockNumber;
                    EExportAll (last_synced_block (self m) + 1)
                               (target_of (self m) h);
                    EWrite (last_synced_block_file (self m))
                           (Py.str (target_of (self m) h) +:+ newline)]).
Proof.
  intros E. apply sync_cycle_inv in E. split.
  - intros e ->.
    inversion E; subst; cbn; (split; [done|]); (split; [done|]).
    + by eexists [_].
    + eexists [_; _]. by rewrite <- app_assoc.
  - intros evs Htr Hw.
    destruct (cycle_trace m r m' E) as (evs' & Htr' & _ & Hsucc).
    rewrite Htr' in Htr. apply app_inv_head in Htr. subst evs'.
    by apply Hsucc.
Qed.

End Failure.

(** C4 on a cycle whose export raises: the head is at 150, the streamer
    at block 99. *)
Lemma failed_cycle_leaves_state_witness :
  let m := mkMachine (streamer_with 99 10 None 20 0 0 true)
             (world_with (checkpoint_at 99)
                (mkScript [inr 150] [Some (AdapterError 1)])) in
  (sync_cycle m).1 = Exc (AdapterError 1)
  /\ self (sync_cycle m).2 = self m
  /\ files (world (sync_cycle m).2) = files (world m).
Proof.
  intros m. split; [reflexivity|].
  pose proof (proj1 (failed_cycle_leaves_state m (sync_cycle m).1
                       (sync_cycle m).2 eq_refl)
                (AdapterError 1) eq_refl) as (Hs & Hf & _).
  exact (conj Hs Hf).
Defined.

(** ** The loop *)

Section Loop.

Context {A : Type} `{StreamerAdapter A}.
Implicit Types (m : Machine A) (s : Streamer).

(** One turn of the [while] of [_do_stream]. *)
Lemma do_stream_S fuel m :
  do_stream (S fuel) m
  = if keep_streaming (self m) then
      match sync_cycle m with
      | (Ret n, m1) =>
          do_stream fuel
            (if n <=? 0 then (time_sleep (period_seconds (self m)) m1).2
             else m1)
      | (Exc e, m1) =>
          if is_Exception e && retry_errors (self m) then
            do_stream fuel (time_sleep (period_seconds (self m)) m1).2
          else (Exc e, m1)
      | (Timeout, m1) => (Timeout, m1)
      end
    else (Ret tt, m).
Proof.
  cbn [do_stream]. unfold bind at 1. unfold get_self at 1.
  destruct (keep_streaming (self m)); [|reflexivity].
  unfold bind at 1, try_except.
  destruct (sync_cycle m) as [[n|e|] m1].
  - unfold bind at 1. by destruct (n <=? 0).
  - destruct (is_Exception e), (retry_errors (self m)); try reflexivity.
  - reflexivity.
Qed.

(** What holds before the loop and is kept by every cycle and every
    sleep holds wherever the loop stands when it ends or the fuel is
    used up. *)
Lemma do_stream_invariant (P : Machine A -> Prop) :
  (forall m r m', P m -> sync_cycle m = (r, m') -> P m') ->
  (forall m seconds, P m -> P (time_sleep seconds m).2) ->
  forall fuel m, P m -> P (do_stream fuel m).2.
Proof.
  intros Hcycle Hsleep fuel.
  induction fuel as [|fuel IH]; intros m Hm; [done|].
  rewrite do_stream_S.
  destruct (keep_streaming (self m)); [|done].
  destruct (sync_cycle m) as [[n|e|] m1] eqn:E;
    pose proof (Hcycle _ _ _ Hm E) as Hm1.
  - apply IH. destruct (n <=? 0); [by apply Hsleep|done].
  - destruct (is_Exception e && retry_errors (self m)); [|done].
    apply IH. by apply Hsleep.
  - done.
Qed.

(** Fuel adds up: a loop that is still running when [k] turns are used
    up goes on from where it stands. *)
Lemma do_stream_add (k j : nat) m :
  do_stream (k + j) m
  = match do_stream k m with
    | (Timeout, m1) => do_stream j m1
    | r => r
    end.
Proof.
  revert m. induction k as [|k IH]; intros m; [done|].
  cbn [Nat.add]. rewrite !do_stream_S.
  destruct (keep_streaming (self m)); [|done].
  destruct (sync_cycle m) as [[n|e|] m1] eqn:E.
  - by rewrite IH.
  - destruct (is_Exception e && retry_errors (self m)); [by rewrite IH|done].
  - apply sync_cycle_inv in E. inversion E.
Qed.

End Loop.

(** ** Checkpoint history *)

Section History.

Context {A : Type} `{StreamerAdapter A}.
Implicit Types (m : Machine A) (s : Streamer).

Lemma written_values_app file (l l' : list Event) :
  written_values file (l ++ l')
  = written_values file l ++ written_values file l'.
Proof.
  induction l as [|ev l IH]; [done|].
  destruct ev; cbn; try done.
  destruct (Py.int content); try done.
  case_bool_decide; cbn; by rewrite ?IH.
Qed.

Lemma non_decreasing_snoc (l : list Z) (t : Z) :
  non_decreasing l -> Forall (fun v => v <= t) l ->
  non_decreasing (l ++ [t]).
Proof.
  induction l as [|x l IH]; [done|].
  intros Hl Hall. apply Forall_cons in Hall as [Hx Hall].
  destruct l as [|y l]; [by cbn|].
  destruct Hl as [Hxy Hl]. split; [done|]. by apply IH.
Qed.

Lemma history_ok_cycle m0 m r m' :
  history_ok m0 m -> sync_cycle m = (r, m') -> history_ok m0 m'.
Proof.
  intros (Hfile & Hread & evs & Htr & Hnd & Hall) E.
  apply sync_cycle_inv in E.
  destruct E as [e a1 Hh | h a1 Hh Hle | h a1 e a2 s t w1 Hh Hlt He
                 | h a1 a2 s t w1 w2 Hh Hlt He].
  1-3: (split; [done|]);
       (split; [by apply (read_same_files _ _ (world m))|]);
       cbn; rewrite Htr.
  - exists (evs ++ [EGetCurrentBlockNumber]).
    by rewrite app_assoc, written_values_app, app_nil_r.
  - exists (evs ++ [EGetCurrentBlockNumber]).
    by rewrite app_assoc, written_values_app, app_nil_r.
  - exists (evs ++ [EGetCurrentBlockNumber;
                    EExportAll (last_synced_block s + 1) t]).
    by rewrite <- !app_assoc, written_values_app, app_nil_r.
  - split; [done|]. split.
    + unfold s in *. rewrite <- Hfile.
      apply (read_after_write (last_synced_block_file (self m)) t w2).
    + exists (evs ++ [EGetCurrentBlockNumber;
                      EExportAll (last_synced_block s + 1) t;
                      EWrite (last_synced_block_file s)
                             (Py.str t +:+ newline)]).
      cbn [self world trace last_synced_block advanced].
      split; [cbn; rewrite Htr; by rewrite <- !app_assoc|].
      rewrite written_values_app. cbn [written_values].
      rewrite int_str_line, bool_decide_eq_true_2 by done.
      assert (Forall (fun v => v <= t)
                (last_synced_block (self m0)
                 :: written_values (last_synced_block_file (self m0)) evs))
        as Hall'.
      { eapply Forall_impl; [exact Hall|]. cbn. intros v Hv.
        unfold s in Hlt. lia. }
      split.
      * rewrite app_comm_cons. by apply non_decreasing_snoc.
      * rewrite app_comm_cons. apply Forall_app. split; [done|].
        by apply Forall_singleton.
Qed.

Lemma history_ok_sleep m0 m seconds :
  history_ok m0 m -> history_ok m0 (time_sleep seconds m).2.
Proof.
  intros (Hfile & Hread & evs & Htr & Hnd & Hall).
  split; [done|]. split.
  - by apply (read_same_files _ _ (world m)).
  - exists (evs ++ [ESleep seconds]). cbn. rewrite Htr.
    by rewrite app_assoc, written_values_app, app_nil_r.
Qed.

Lemma history_ok_refl m :
  read_last_synced_block (last_synced_block_file (self m)) (world m)
  = (Ret (last_synced_block (self m)), world m) ->
  history_ok m m.
Proof.
  intros Hread. split; [done|]. split; [done|].
  exists []. rewrite app_nil_r. repeat split; cbn.
  by apply Forall_singleton.
Qed.

Lemma history_ok_do_stream fuel m :
  read_last_synced_block (last_synced_block_file (self m)) (world m)
  = (Ret (last_synced_block (self m)), world m) ->
  history_ok m (do_stream fuel m).2.
Proof.
  intros Hread.
  apply (do_stream_invariant (history_ok m)).
  - apply history_ok_cycle.
  - intros. by apply history_ok_sleep.
  - by apply history_ok_refl.
Qed.

(** C5.  While the loop runs, from a state in which the file holds the
    block the object remembers, the values written to the checkpoint
    file never decrease, starting from the value the file held; the
    in-memory block does not decrease either, neither from the start
    nor from any point of the run to a later one, and the file keeps
    holding it. *)
Theorem checkpoint_non_decreasing fuel m :
  let file := last_synced_block_file (self m) in
  let m' := (do_stream fuel m).2 in
  read_last_synced_block file (world m)
  = (Ret (last_synced_block (self m)), world m) ->
  (exists evs,
     trace (world m') = trace (world m) ++ evs
     /\ non_decreasing
          (last_synced_block (self m) :: written_values file evs))
  /\ last_synced_block (self m) <= last_synced_block (self m')
  /\ read_last_synced_block file (world m')
     = (Ret (last_synced_block (self m')), world m')
  /\ forall later : nat,
       last_synced_block (self m')
       <= last_synced_block (self (do_stream (fuel + later) m).2).
Proof.
  intros file m' Hread.
  destruct (history_ok_do_stream fuel m Hread)
    as (Hfile & Hread' & evs & Htr & Hnd & Hall).
  split; [by exists evs|]. split; [|split; [done|]].
  - by apply Forall_cons in Hall as [? _].
  - intros later. rewrite do_stream_add. subst m'.
    destruct (do_stream fuel m) as [[[]|e|] m1]; cbn [snd] in *; [done..|].
    rewrite <- Hfile in Hread'.
    destruct (history_ok_do_stream later m1 Hread')
      as (_ & _ & evs1 & _ & _ & Hall1).
    by apply Forall_cons in Hall1 as [? _].
Qed.

End History.

(** C5 on a run of three cycles that sync the blocks 100 to 119, then 120
    to 139, then find nothing new. *)
Lemma checkpoint_non_decreasing_witness :
  let m := mkMachine (streamer_with 99 10 None 20 0 0 true)
             (world_with (checkpoint_at 99)
                (mkScript [inr 150; inr 150; inr 149] [])) in
  written_values "last_synced_block.txt" (trace (world (do_stream 3 m).2))
  = [119; 139]
  /\ 99 <= last_synced_block (self (do_stream 3 m).2).
Proof.
  intros m. split; [reflexivity|].
  exact (proj1 (proj2 (checkpoint_non_decreasing 3 m eq_refl))).
Defined.

(** ** Construction *)

Section Init.

Context {A : Type} `{StreamerAdapter A}.
Implicit Types (m : Machine A) (s : Streamer) (w : World A).

Lemma read_is_file file (v : Z) w :
  read_last_synced_block file w = (Ret v, w) ->
  isfile file (files w) = true.
Proof.
  unfold read_last_synced_block, read_file, isfile. intros Hr.
  destruct (files w !! file) eqn:E; [|done].
  by apply bool_decide_eq_true_2.
Qed.

(** The two ways [__init__] succeeds: it finds a checkpoint and was
    given no start block, or it finds none and writes one. *)
Lemma Streamer_init_inv file lag start end_ period batch ramp retry pidf
      w s w0 :
  Streamer_init file lag start end_ period batch ramp retry pidf w
  = (Ret s, w0) ->
  s = mkStreamer file lag start end_ period batch ramp 0 retry pidf
                 (last_synced_block s)
  /\ read_last_synced_block file w0 = (Ret (last_synced_block s), w0)
  /\ (isfile file (files w) = true /\ start = None /\ w0 = w
      \/ isfile file (files w) = false
         /\ last_synced_block s = or_zero start - 1
         /\ w0 = (write_last_synced_block file (or_zero start - 1) w).2).
Proof.
  unfold Streamer_init, bind at 1, os_path_isfile.
  destruct (isfile file (files w)) eqn:Hf.
  - destruct start as [sb|]; cbn [bool_decide decide_rel negb orb].
    + rewrite bool_decide_eq_true_2 by done. cbn [orb].
      unfold bind at 1, init_last_synced_block_file, bind at 1,
        os_path_isfile. by rewrite Hf.
    + rewrite bool_decide_eq_false_2 by (by intros []). cbn [orb negb].
      unfold bind, ret.
      destruct (read_last_synced_block file w) as [[v| |] w1] eqn:Hr;
        [|done..].
      intros [= <- <-]. cbn.
      assert (w1 = w) as ->
        by (unfold read_last_synced_block in Hr;
            destruct (read_file _ _); by injection Hr).
      split; [done|]. split; [done|]. by left.
  - rewrite orb_true_r.
    unfold bind at 1, init_last_synced_block_file, bind at 1,
      os_path_isfile. rewrite Hf.
    pose proof (read_after_write file (or_zero start - 1) w) as Hr.
    cbn zeta in Hr.
    destruct (write_last_synced_block file (or_zero start - 1) w)
      as [[] w1] eqn:Hw; [|done..].
    cbn [snd] in Hr. unfold bind, ret. rewrite Hr.
    intros [= <- <-]. cbn. split; [done|]. split; [done|]. by right.
Qed.

Lemma first_export_app (l l' : list Event) :
  first_export (l ++ l')
  = match first_export l with
    | Some x => Some x
    | None => first_export l'
    end.
Proof. induction l as [|ev l IH]; [done|]. by destruct ev. Qed.

(** C8.  When the file holds the checkpoint [C] and no start block is
    given, [__init__] leaves the file alone and the new object
    remembers [C]; however the loop then runs, the first export it
    asks for starts at block [C + 1]. *)
Theorem resume_from_checkpoint (C : Z) file lag end_ period batch ramp
        retry pidf w :
  read_last_synced_block file w = (Ret C, w) ->
  exists s,
    Streamer_init file lag None end_ period batch ramp retry pidf w
    = (Ret s, w)
    /\ last_synced_block s = C
    /\ forall fuel x y,
         first_export (trace w) = None ->
         first_export (trace (world (do_stream fuel (mkMachine s w)).2))
         = Some (x, y) ->
         x = C + 1.
Proof.
  intros Hread.
  destruct (Streamer_init file lag None end_ period batch ramp retry pidf w)
    as [r w0] eqn:Hinit.
  assert (r = Ret (mkStreamer file lag None end_ period batch ramp 0 retry
                              pidf C) /\ w0 = w) as [-> ->].
  { revert Hinit. unfold Streamer_init, bind at 1, os_path_isfile.
    rewrite (read_is_file _ _ _ Hread). cbn.
    unfold bind, ret. rewrite Hread. by intros [= <- <-]. }
  eexists. split; [done|]. split; [done|].
  intros fuel x y Hnone.
  set (P := fun m : Machine A =>
              last_synced_block (self m) = C
              /\ first_export (trace (world m)) = None
              \/ exists y, first_export (trace (world m))
                           = Some (C + 1, y)).
  assert (P (do_stream fuel
               (mkMachine (mkStreamer file lag None end_ period batch ramp
                                      0 retry pidf C) w)).2) as HP.
  { apply (do_stream_invariant P).
    - intros m r0 m' [[Hl Hn]|[y0 Hy]] E; apply sync_cycle_inv in E.
      + destruct E; subst P; cbn.
        * left. by rewrite first_export_app, Hn.
        * left. by rewrite first_export_app, Hn.
        * right. rewrite !first_export_app, Hn. cbn. subst s.
          rewrite Hl. by eexists.
        * right. rewrite !first_export_app, Hn. cbn. subst s.
          rewrite Hl. by eexists.
      + right. destruct E; cbn; rewrite ?first_export_app, Hy;
          by eexists.
    - intros m seconds [[Hl Hn]|[y0 Hy]]; [left|right]; cbn.
      + by rewrite first_export_app, Hn.
      + rewrite first_export_app, Hy. by eexists.
    - left. by cbn. }
  intros Hfirst. destruct HP as [[_ Hn]|[y0 Hy]]; congruence.
Qed.

(** C9, amended.  When [__init__] finds no checkpoint file and the
    start block is unset or not negative, it writes the start block
    minus one, which is -1 when the start block is unset or 0 and is
    never below -1; when it finds a file that holds an integer of at
    least -1 it leaves it there.  From then on, wherever the loop
    stands, the file holds an integer that is not below the one it
    held after [__init__], hence not below -1. *)
Theorem checkpoint_at_least_minus_one file lag start end_ period batch ramp
        retry pidf w s w0 fuel :
  Streamer_init file lag start end_ period batch ramp retry pidf w
  = (Ret s, w0) ->
  (forall sb, start = Some sb -> 0 <= sb) ->
  (forall v0, read_last_synced_block file w = (Ret v0, w) -> -1 <= v0) ->
  read_last_synced_block file w0 = (Ret (last_synced_block s), w0)
  /\ (isfile file (files w) = false ->
      last_synced_block s = or_zero start - 1)
  /\ -1 <= last_synced_block s
  /\ exists v,
       read_last_synced_block file
         (world (do_stream fuel (mkMachine s w0)).2)
       = (Ret v, world (do_stream fuel (mkMachine s w0)).2)
       /\ last_synced_block s <= v.
Proof.
  intros Hinit Hstart Hold.
  destruct (Streamer_init_inv _ _ _ _ _ _ _ _ _ _ _ _ Hinit)
    as (Hs & Hread & Hcase).
  assert (last_synced_block_file s = file) as Hfile by (by rewrite Hs).
  split; [done|]. split; [|split].
  - intros Hf. destruct Hcase as [(Hf' & _)|(_ & Hl & _)]; congruence.
  - destruct Hcase as [(_ & _ & ->)|(_ & -> & _)]; [by apply Hold|].
    destruct start as [sb|]; cbn; [|lia].
    specialize (Hstart sb eq_refl). destruct (Z.eqb_spec sb 0); lia.
  - pose proof (history_ok_do_stream fuel (mkMachine s w0)) as Hok.
    cbn [self world] in Hok. rewrite Hfile in Hok.
    destruct (Hok Hread) as (_ & Hread' & evs & _ & _ & Hall).
    cbn [self world] in Hread', Hall. rewrite Hfile in Hread'.
    eexists. split; [exact Hread'|].
    by apply Forall_cons in Hall as [? _].
Qed.

End Init.

(** C8 on a file holding 99: the first cycle finds nothing new, the
    second exports from block 100 on. *)
Lemma resume_from_checkpoint_witness :
  exists s,
    Streamer_init "last_synced_block.txt" 10 None None 10 20 0 true None
      (world_with (checkpoint_at 99) (mkScript [inr 109; inr 150] []))
    = (Ret s, world_with (checkpoint_at 99) (mkScript [inr 109; inr 150] []))
    /\ last_synced_block s = 99
    /\ first_export
         (trace (world (do_stream 2
                          (mkMachine s
                             (world_with (checkpoint_at 99)
                                (mkScript [inr 109; inr 150] [])))).2))
       = Some (100, 119).
Proof.
  destruct (resume_from_checkpoint 99 "last_synced_block.txt" 10 None 10 20 0
              true None
              (world_with (checkpoint_at 99) (mkScript [inr 109; inr 150] []))
              eq_refl) as (s & Hinit & Hl & Hfirst).
  exists s. split; [exact Hinit|]. split; [exact Hl|].
  injection Hinit as <-. reflexivity.
Defined.

(** C9, as stated, fails: a first run without a start block leaves -1 in
    the checkpoint file. *)
Lemma first_run_checkpoint_negative :
  let r := Streamer_init "last_synced_block.txt" 0 None None 10 10 0 true
             None (world_with ∅ (mkScript [] [])) in
  files r.2 !! "last_synced_block.txt" = Some ("-1" +:+ newline)
  /\ read_last_synced_block "last_synced_block.txt" r.2 = (Ret (-1), r.2)
  /\ ~ 0 <= -1.
Proof. repeat split; [reflexivity..|lia]. Qed.

(** C9 amended, on a first run from block 5 that then syncs up to a head
    at 30. *)
Lemma checkpoint_at_least_minus_one_witness :
  let w := world_with ∅ (mkScript [inr 30; inr 30] []) in
  let s := mkStreamer "last_synced_block.txt" 0 (Some 5) None 10 10 0 0 true
                      None 4 in
  let w0 := (write_last_synced_block "last_synced_block.txt" 4 w).2 in
  Streamer_init "last_synced_block.txt" 0 (Some 5) None 10 10 0 true None w
  = (Ret s, w0)
  /\ -1 <= last_synced_block s
  /\ exists v,
       read_last_synced_block "last_synced_block.txt"
         (world (do_stream 2 (mkMachine s w0)).2)
       = (Ret v, world (do_stream 2 (mkMachine s w0)).2)
       /\ 4 <= v.
Proof.
  intros w s w0.
  assert (Streamer_init "last_synced_block.txt" 0 (Some 5) None 10 10 0 true
                        None w = (Ret s, w0)) as Hinit by reflexivity.
  split; [exact Hinit|].
  assert (forall sb : Z, Some 5 = Some sb -> 0 <= sb) as Hstart
    by (intros sb [= <-]; lia).
  assert (forall v0 : Z,
            read_last_synced_block "last_synced_block.txt" w = (Ret v0, w) ->
            -1 <= v0) as Hold
    by (intros v0 Hv0; discriminate Hv0).
  exact (proj2 (proj2 (checkpoint_at_least_minus_one _ _ _ _ _ _ _ _ _ _ _ _
                         2%nat Hinit Hstart Hold))).
Defined.

(** ** Errors that are not retried *)

Section NoRetry.

Context {A : Type} `{StreamerAdapter A}.
Implicit Types (m : Machine A) (s : Streamer).

Lemma cycle_closes m r m' :
  cycle m r m' ->
  count_events is_close (trace (world m'))
  = count_events is_close (trace (world m)).
Proof.
  intros C. destruct (cycle_trace m r m' C) as (evs & -> & Hc & _).
  rewrite count_events_app. lia.
Qed.

Lemma cycle_retry_errors m r m' :
  cycle m r m' -> retry_errors (self m') = retry_errors (self m).
Proof. by intros []. Qed.

Lemma iterations_closes k m m' :
  iterations k m m' ->
  count_events is_close (trace (world m'))
  = count_events is_close (trace (world m))
  /\ retry_errors (self m') = retry_errors (self m).
Proof.
  induction 1 as [m|k m n m1 m2 m3 Hk Hc Hs _ [IHc IHr]]; [done|].
  apply sync_cycle_inv in Hc.
  rewrite IHc, IHr.
  destruct (n <=? 0); injection Hs as <-; cbn.
  - rewrite count_events_app. cbn.
    rewrite (cycle_closes _ _ _ Hc), (cycle_retry_errors _ _ _ Hc).
    split; [lia|done].
  - by rewrite (cycle_closes _ _ _ Hc), (cycle_retry_errors _ _ _ Hc).
Qed.

(** The loop follows a run of good iterations. *)
Lemma iterations_do_stream k m m' fuel :
  iterations k m m' -> do_stream (k + fuel) m = do_stream fuel m'.
Proof.
  induction 1 as [m|k m n m1 m2 m3 Hk Hc Hs _ IH]; [done|].
  cbn [Nat.add]. rewrite do_stream_S, Hk, Hc, <- IH.
  destruct (n <=? 0); by injection Hs as <-.
Qed.

Lemma acquire_inv m m1 :
  acquire (self m) m = (Ret tt, m1) ->
  self m1 = self m
  /\ count_events is_close (trace (world m1))
     = count_events is_close (trace (world m)).
Proof.
  unfold acquire, bind, adapter_open, call, ret.
  destruct (pid_file (self m)); cbn;
    destruct (open (adapter (world m))) as [[e|] a1]; cbn;
    intros [= <-]; cbn; rewrite ?count_events_app; cbn; split; (done || lia).
Qed.

Lemma release_spec s m :
  (release s m).1 = Ret tt
  /\ self (release s m).2 = self m
  /\ files (world (release s m).2)
     = match pid_file s with
       | Some f => delete f (files (world m))
       | None => files (world m)
       end
  /\ count_events is_close (trace (world (release s m).2))
     = S (count_events is_close (trace (world m))).
Proof.
  unfold release, bind, adapter_close, call, ret.
  destruct (pid_file s); cbn; rewrite ?count_events_app; cbn;
    repeat split; lia.
Qed.

(** C7.  With [retry_errors] off, when the loop has made [k] good
    iterations after the adapter was opened and the next cycle raises
    [e], [stream] raises [e]; the adapter has been closed once more
    than before the call, in the [finally] block; the failed cycle
    wrote nothing and left the object and the files as they were, and
    after [stream] the files are those, less the pid file. *)
Theorem stream_reraises (k fuel : nat) m0 m1 m2 m3 (e : PyExc) :
  retry_errors (self m0) = false ->
  acquire (self m0) m0 = (Ret tt, m1) ->
  iterations k m1 m2 ->
  keep_streaming (self m2) = true ->
  sync_cycle m2 = (Exc e, m3) ->
  (k < fuel)%nat ->
  (stream fuel m0).1 = Exc e
  /\ count_events is_close (trace (world (stream fuel m0).2))
     = S (count_events is_close (trace (world m0)))
  /\ self m3 = self m2
  /\ files (world m3) = files (world m2)
  /\ (exists evs, trace (world m3) = trace (world m2) ++ evs
                  /\ count_events is_write evs = O)
  /\ self (stream fuel m0).2 = self m2
  /\ files (world (stream fuel m0).2)
     = match pid_file (self m0) with
       | Some f => delete f (files (world m2))
       | None => files (world m2)
       end.
Proof.
  intros Hretry Hacq Hiter Hkeep Hcycle Hfuel.
  destruct (acquire_inv _ _ Hacq) as [Hself1 Hclose1].
  destruct (iterations_closes _ _ _ Hiter) as [Hclose2 Hretry2].
  pose proof (sync_cycle_inv _ _ _ Hcycle) as C.
  pose proof (cycle_closes _ _ _ C) as Hclose3.
  assert (self m3 = self m2 /\ files (world m3) = files (world m2)
          /\ exists evs, trace (world m3) = trace (world m2) ++ evs
                         /\ count_events is_write evs = O)
    as (Hself3 & Hfiles3 & Hevs).
  { inversion C; subst; cbn; (split; [done|]); (split; [done|]).
    - by eexists [_].
    - eexists [_; _]. by rewrite <- app_assoc. }
  assert (do_stream fuel m1 = (Exc e, m3)) as Hloop.
  { replace fuel with (k + S (fuel - S k))%nat by lia.
    rewrite (iterations_do_stream _ _ _ _ Hiter), do_stream_S.
    rewrite Hkeep, Hcycle, Hretry2, Hself1, Hretry.
    by rewrite andb_false_r. }
  assert (stream fuel m0 = (Exc e, (release (self m0) m3).2)) as ->.
  { unfold stream, bind at 1, get_self, try_finally, bind at 1.
    rewrite Hacq, Hloop.
    destruct (release_spec (self m0) m3) as (Hr & _).
    destruct (release (self m0) m3) as [[[]| |] m4]; by cbn in *. }
  destruct (release_spec (self m0) m3) as (_ & Hself4 & Hfiles4 & Hclose4).
  cbn [fst snd]. rewrite Hself4, Hfiles4, Hclose4, Hself3, Hfiles3.
  rewrite Hclose3, Hclose2, Hclose1. by repeat split.
Qed.

End NoRetry.

(** C7 in scenario D: two cycles sync 10 blocks each, the export of the
    third raises. *)
Lemma stream_reraises_witness :
  let m0 := mkMachine (streamer_with 99 0 None 10 0 0 false)
              (world_with (checkpoint_at 99)
                 (mkScript [inr 150; inr 150; inr 150]
                           [None; None; Some (AdapterError 3)])) in
  (stream 5 m0).1 = Exc (AdapterError 3)
  /\ count_events is_close (trace (world (stream 5 m0).2)) = 1%nat
  /\ files (world (stream 5 m0).2) = checkpoint_at 119.
Proof.
  intros m0.
  set (m1 := (acquire (self m0) m0).2).
  set (c1 := (sync_cycle m1).2).
  set (c2 := (sync_cycle c1).2).
  assert (iterations 2 m1 c2) as Hiter.
  { apply (iterations_S 1 m1 10 c1 c1 c2); [reflexivity..|].
    apply (iterations_S 0 c1 10 c2 c2 c2); [reflexivity..|].
    apply iterations_O. }
  assert (acquire (self m0) m0 = (Ret tt, m1)) as Hacq by reflexivity.
  assert (sync_cycle c2 = (Exc (AdapterError 3), (sync_cycle c2).2))
    as Hcycle by reflexivity.
  destruct (stream_reraises 2 5 m0 m1 c2 (sync_cycle c2).2 (AdapterError 3)
              eq_refl Hacq Hiter eq_refl Hcycle ltac:(lia))
    as (Hexc & Hclose & _ & _ & _ & _ & Hfiles).
  split; [exact Hexc|]. split; [exact Hclose|].
  rewrite Hfiles. reflexivity.
Defined.

(** ** Export ranges *)

Section Ranges.

Context {A : Type} `{StreamerAdapter A}.
Implicit Types (m : Machine A) (s : Streamer).

(** The target stays within each of its three bounds. *)
Lemma calculate_target_block_bounds s (h last width : Z) :
  calculate_target_block s h last width <= h - lag s
  /\ calculate_target_block s h last width <= last + width
  /\ forall e, end_block s = Some e ->
       calculate_target_block s h last width <= e.
Proof.
  unfold calculate_target_block.
  destruct (end_block s) as [e|]; repeat split; try lia.
  - intros e' [= <-]. lia.
  - intros e' [=].
Qed.

(** X1.  A head that is further on, a later checkpoint or a wider batch
    never gives an earlier target. *)
Theorem calculate_target_block_monotone s (h1 h2 l1 l2 w1 w2 : Z) :
  h1 <= h2 -> l1 <= l2 -> w1 <= w2 ->
  calculate_target_block s h1 l1 w1 <= calculate_target_block s h2 l2 w2.
Proof.
  intros Hh Hl Hw. unfold calculate_target_block.
  destruct (end_block s); lia.
Qed.

Lemma cycle_same_config m r m' :
  cycle m r m' -> same_config (self m) (self m').
Proof. intros []; by repeat split. Qed.

Lemma exports_of_app (l l' : list Event) :
  exports_of (l ++ l') = exports_of l ++ exports_of l'.
Proof.
  induction l as [|ev l IH]; [done|]. destruct ev; cbn; by rewrite ?IH.
Qed.

Lemma effective_batch_size_cases s :
  effective_batch_size s = 1
  \/ effective_batch_size s = block_batch_size s.
Proof.
  unfold effective_batch_size.
  destruct (_ && _); [by left|by right].
Qed.

(** What a cycle asks the adapter to export, if anything: the blocks
    after the last synced one, at least one and at most a batch of
    them, not beyond the head minus the lag nor beyond the end block. *)
Lemma sync_cycle_export_range m r m' :
  sync_cycle m = (r, m') ->
  exists evs,
    trace (world m') = trace (world m) ++ evs
    /\ forall a b, In (a, b) (exports_of evs) ->
         a = last_synced_block (self m) + 1
         /\ a <= b
         /\ b - a + 1 <= effective_batch_size (self m)
         /\ (forall e, end_block (self m) = Some e -> b <= e)
         /\ exists h a1,
              get_current_block_number (adapter (world m)) = (inr h, a1)
              /\ b <= h - lag (self m).
Proof.
  intros E. apply sync_cycle_inv in E.
  assert (forall h, let t := target_of (self m) h in
            last_synced_block (self m) < t ->
            last_synced_block (self m) + 1 <= t
            /\ t - (last_synced_block (self m) + 1) + 1
               <= effective_batch_size (self m)
            /\ (forall e, end_block (self m) = Some e -> t <= e)
            /\ t <= h - lag (self m)) as Hrange.
  { intros h t Hlt. subst t. unfold target_of in *.
    destruct (calculate_target_block_bounds (self m) h
                (last_synced_block (self m))
                (effective_batch_size (self m)))
      as (Hlag & Hwidth & Hend).
    repeat split; [lia|lia|done|lia]. }
  destruct E as [e a1 Hh | h a1 Hh Hle | h a1 e a2 s t w1 Hh Hlt He
                 | h a1 a2 s t w1 w2 Hh Hlt He].
  - eexists [_]. split; [done|]. by intros a b [].
  - eexists [_]. split; [done|]. by intros a b [].
  - eexists [_; _]. split; [cbn; by rewrite <- app_assoc|].
    intros a b [[= <- <-]|[]].
    destruct (Hrange h Hlt) as (? & ? & ? & ?).
    repeat split; try done. by exists h, a1.
  - eexists [_; _; _]. split; [cbn; by rewrite <- !app_assoc|].
    intros a b [[= <- <-]|[]].
    destruct (Hrange h Hlt) as (? & ? & ? & ?).
    repeat split; try done. by exists h, a1.
Qed.

(** X2.  When the head, less the lag, is not beyond the last synced block,
    be it because the chain stood still or because the head went back,
    the cycle returns 0: nothing is exported or written, and the object
    and the files are as they were. *)
Theorem sync_cycle_idle_behind_lag m (h : Z) (a1 : A) :
  get_current_block_number (adapter (world m)) = (inr h, a1) ->
  h - lag (self m) <= last_synced_block (self m) ->
  sync_cycle m
  = (Ret 0,
     mkMachine (self m) (with_adapter (world m) EGetCurrentBlockNumber a1)).
Proof.
  intros Hh Hle.
  destruct (sync_cycle m) as [r m'] eqn:E.
  pose proof (calculate_target_block_bounds (self m) h
                (last_synced_block (self m))
                (effective_batch_size (self m))) as (Hlag & _).
  destruct (sync_cycle_inv _ _ _ E)
    as [e a1' Hh' | h' a1' Hh' Hidle | h' a1' e a2 s t w1 Hh' Hlt He
        | h' a1' a2 s t w1 w2 Hh' Hlt He];
    rewrite Hh in Hh'; try discriminate Hh'; injection Hh' as <- <-;
    [done|subst s t; unfold target_of in Hlt; lia..].
Qed.

(** X3.  The number a cycle returns is the number of blocks it exported in
    one call, from the block after the last synced one on; that range
    ends at or before the head less the lag, and its last block is what
    was written to the checkpoint file and what the object now
    remembers. *)
Theorem sync_cycle_reports_its_export m (n : Z) m' :
  sync_cycle m = (Ret n, m') ->
  0 < n ->
  exists h a1 evs,
    get_current_block_number (adapter (world m)) = (inr h, a1)
    /\ trace (world m') = trace (world m) ++ evs
    /\ exports_of evs
       = [(last_synced_block (self m) + 1, last_synced_block (self m) + n)]
    /\ written_values (last_synced_block_file (self m)) evs
       = [last_synced_block (self m) + n]
    /\ last_synced_block (self m) + n <= h - lag (self m)
    /\ last_synced_block (self m') = last_synced_block (self m) + n
    /\ processed_blocks_count (self m')
       = processed_blocks_count (self m) + n.
Proof.
  intros E Hn. apply sync_cycle_inv in E.
  inversion E as [ | | | h a1 a2 s t w1 w2 Hh Hlt He Hr]; subst; [lia|].
  exists h, a1,
    [EGetCurrentBlockNumber; EExportAll (last_synced_block s + 1) t;
     EWrite (last_synced_block_file s) (Py.str t +:+ newline)].
  pose proof (calculate_target_block_bounds s h (last_synced_block s)
                (effective_batch_size s)) as (Hlag & _).
  subst s. cbn [self world trace last_synced_block processed_blocks_count
                advanced written_values exports_of].
  rewrite int_str_line, bool_decide_eq_true_2 by done.
  replace (last_synced_block (self m) + (t - last_synced_block (self m)))
    with t by lia.
  split_and!; try done.
  - subst w2 w1. cbn. by rewrite <- !app_assoc.
Qed.

End Ranges.

(** Heads at 100 and at 150, seen from block 99 with a lag of 10. *)
Lemma calculate_target_block_monotone_witness :
  calculate_target_block (streamer_with 99 10 None 20 0 0 true) 100 99 20
  <= calculate_target_block (streamer_with 99 10 None 20 0 0 true) 150 99 20.
Proof.
  apply (calculate_target_block_monotone
           (streamer_with 99 10 None 20 0 0 true) 100 150 99 99 20 20); lia.
Defined.

(** A head that went back to 95, seen from block 99. *)
Lemma sync_cycle_idle_behind_lag_witness :
  let m := mkMachine (streamer_with 99 0 None 20 0 0 true)
             (world_with (checkpoint_at 99) (mkScript [inr 95] [])) in
  sync_cycle m
  = (Ret 0,
     mkMachine (self m)
       (with_adapter (world m) EGetCurrentBlockNumber (mkScript [] []))).
Proof.
  intros m.
  refine (sync_cycle_idle_behind_lag m 95 (mkScript [] []) eq_refl _).
  cbn. lia.
Defined.

(** A cycle that syncs the blocks 100 to 119. *)
Lemma sync_cycle_reports_its_export_witness :
  let m := mkMachine (streamer_with 99 10 None 20 0 0 true)
             (world_with (checkpoint_at 99) (mkScript [inr 150] [])) in
  exists h a1 evs,
    get_current_block_number (adapter (world m)) = (inr h, a1)
    /\ trace (world (sync_cycle m).2) = trace (world m) ++ evs
    /\ exports_of evs = [(99 + 1, 99 + 20)]
    /\ written_values "last_synced_block.txt" evs = [99 + 20]
    /\ 99 + 20 <= h - 10
    /\ last_synced_block (self (sync_cycle m).2) = 99 + 20
    /\ processed_blocks_count (self (sync_cycle m).2) = 0 + 20.
Proof.
  intros m.
  assert (sync_cycle m = (Ret 20, (sync_cycle m).2)) as E by reflexivity.
  refine (sync_cycle_reports_its_export m 20 (sync_cycle m).2 E _). lia.
Defined.

(** ** Counters *)

Section Counters.

Context {A : Type} `{StreamerAdapter A}.
Implicit Types (m : Machine A) (s : Streamer).

Lemma same_config_refl s : same_config s s.
Proof. by repeat split. Qed.

Lemma same_config_trans s1 s2 s3 :
  same_config s1 s2 -> same_config s2 s3 -> same_config s1 s3.
Proof.
  unfold same_config. intros (?&?&?&?&?&?&?&?&?) (?&?&?&?&?&?&?&?&?).
  repeat split; congruence.
Qed.

(** The arguments of the constructor stay, the last synced block only
    grows, and the counter of processed blocks grows by as much. *)
Lemma cycle_counters m r m' :
  cycle m r m' ->
  same_config (self m) (self m')
  /\ last_synced_block (self m) <= last_synced_block (self m')
  /\ processed_blocks_count (self m') - processed_blocks_count (self m)
     = last_synced_block (self m') - last_synced_block (self m).
Proof.
  intros C. split; [by eapply cycle_same_config|].
  destruct C; cbn;
    repeat match goal with x := _ |- _ => subst x end; lia.
Qed.

Lemma do_stream_counters fuel m :
  same_config (self m) (self (do_stream fuel m).2)
  /\ last_synced_block (self m) <= last_synced_block (self (do_stream fuel m).2)
  /\ processed_blocks_count (self (do_stream fuel m).2)
     - processed_blocks_count (self m)
     = last_synced_block (self (do_stream fuel m).2)
       - last_synced_block (self m).
Proof.
  apply (do_stream_invariant
           (fun m' => same_config (self m) (self m')
                      /\ last_synced_block (self m)
                         <= last_synced_block (self m')
                      /\ processed_blocks_count (self m')
                         - processed_blocks_count (self m)
                         = last_synced_block (self m')
                           - last_synced_block (self m))).
  - intros m1 r m2 (Hc & Hl & Hp) E.
    destruct (cycle_counters _ _ _ (sync_cycle_inv _ _ _ E))
      as (Hc' & Hl' & Hp').
    split; [by eapply same_config_trans|]. lia.
  - by intros m1 seconds.
  - split; [apply same_config_refl|lia].
Qed.

Lemma release_returns s m : (release s m).1 = Ret tt.
Proof.
  unfold release, bind, adapter_close, call, ret. by destruct (pid_file s).
Qed.

(** [stream] is the loop between [acquire] and [release]; when the fuel
    runs out in the loop, the [finally] block has not been reached. *)
Lemma stream_eq fuel m :
  stream fuel m
  = match acquire (self m) m with
    | (Ret _, m1) =>
        match do_stream fuel m1 with
        | (Timeout, m2) => (Timeout, m2)
        | (r, m2) => (r, (release (self m) m2).2)
        end
    | (Exc e, m1) => (Exc e, (release (self m) m1).2)
    | (Timeout, m1) => (Timeout, m1)
    end.
Proof.
  unfold stream, bind at 1, get_self, try_finally, bind at 1.
  destruct (acquire (self m) m) as [[[]|e|] m1]; [|by rewrite
    (surjective_pairing (release (self m) m1)), release_returns|done].
  destruct (do_stream fuel m1) as [[[]|e|] m2]; [| |done];
    by rewrite (surjective_pairing (release (self m) m2)), release_returns.
Qed.

Lemma stream_cases fuel m :
  (exists m1 r m2,
     acquire (self m) m = (Ret tt, m1)
     /\ do_stream fuel m1 = (r, m2)
     /\ r <> Timeout
     /\ stream fuel m = (r, (release (self m) m2).2))
  \/ (exists m1 m2,
        acquire (self m) m = (Ret tt, m1)
        /\ do_stream fuel m1 = (Timeout, m2)
        /\ stream fuel m = (Timeout, m2))
  \/ (exists e m1,
        acquire (self m) m = (Exc e, m1)
        /\ stream fuel m = (Exc e, (release (self m) m1).2)).
Proof.
  rewrite stream_eq.
  destruct (acquire (self m) m) as [[[]|e|] m1] eqn:Hacq.
  - destruct (do_stream fuel m1) as [[[]|e|] m2] eqn:Hloop.
    + left. by exists m1, (Ret tt), m2.
    + left. by exists m1, (Exc e), m2.
    + right. left. by exists m1, m2.
  - right. right. by exists e, m1.
  - exfalso. revert Hacq.
    unfold acquire, bind, adapter_open, call, ret.
    destruct (pid_file (self m)); cbn;
      by destruct (open (adapter (world m))) as [[?|] ?].
Qed.

(** Opening touches neither the object nor the adapter's record of
    closes; it writes the pid file, if any, and nothing else. *)
Lemma acquire_spec s m :
  self (acquire s m).2 = self m
  /\ count_events is_close (trace (world (acquire s m).2))
     = count_events is_close (trace (world m))
  /\ count_events is_query (trace (world (acquire s m).2))
     = count_events is_query (trace (world m))
  /\ files (world (acquire s m).2)
     = match pid_file s with
       | Some f => <[f := Py.str (getpid (world m))]> (files (world m))
       | None => files (world m)
       end.
Proof.
  unfold acquire, bind, adapter_open, call, ret.
  destruct (pid_file s); cbn;
    destruct (open (adapter (world m))) as [[e|] a1]; cbn;
    rewrite ?count_events_app; cbn; repeat split; lia.
Qed.

Lemma release_self s m : self (release s m).2 = self m.
Proof. by destruct (release_spec s m) as (_ & ? & _). Qed.

(** X4.  Over a whole call of [stream], however it ends, the arguments of
    the constructor stay as they are, the last synced block does not
    decrease, and [processed_blocks_count] has grown by exactly the
    number of blocks by which [last_synced_block] has. *)
Theorem stream_counts_synced_blocks fuel m :
  let s := self m in
  let s' := self (stream fuel m).2 in
  same_config s s'
  /\ last_synced_block s <= last_synced_block s'
  /\ processed_blocks_count s' - processed_blocks_count s
     = last_synced_block s' - last_synced_block s.
Proof.
  cbn zeta.
  destruct (stream_cases fuel m)
    as [(m1 & r & m2 & Hacq & Hloop & _ & ->)
       |[(m1 & m2 & Hacq & Hloop & ->)|(e & m1 & Hacq & ->)]];
    cbn [snd]; rewrite ?release_self;
    pose proof (acquire_spec (self m) m) as (Hself & _);
    rewrite Hacq in Hself; cbn [snd] in Hself.
  - pose proof (do_stream_counters fuel m1) as Hc.
    rewrite Hloop, Hself in Hc. exact Hc.
  - pose proof (do_stream_counters fuel m1) as Hc.
    rewrite Hloop, Hself in Hc. exact Hc.
  - rewrite Hself. split; [apply same_config_refl|lia].
Qed.

(** X5.  Ramp-up does not come back: once more blocks have been processed
    than [ramp_up_blocks], or when [ramp_up_blocks] is not positive,
    every later cycle of the loop works with [block_batch_size]. *)
Theorem ramp_up_is_over fuel m :
  ramp_up_blocks (self m) < processed_blocks_count (self m)
  \/ ramp_up_blocks (self m) <= 0 ->
  effective_batch_size (self (do_stream fuel m).2)
  = block_batch_size (self m).
Proof.
  intros Hover.
  destruct (do_stream_counters fuel m) as (Hc & Hl & Hp).
  destruct Hc as (_ & _ & _ & _ & _ & Hb & Hr & _).
  unfold effective_batch_size. rewrite Hb, Hr.
  destruct (Z.eqb_spec (ramp_up_blocks (self m)) 0); [done|].
  destruct (Z.ltb_spec 0 (ramp_up_blocks (self m))); [|done].
  destruct (Z.leb_spec (processed_blocks_count (self (do_stream fuel m).2))
                       (ramp_up_blocks (self m))); [lia|done].
Qed.

End Counters.

(** After the third of two ramp-up blocks, two more cycles on. *)
Lemma ramp_up_is_over_witness :
  effective_batch_size
    (self (do_stream 2
             (mkMachine (streamer_with 99 0 None 10 2 3 true)
                (world_with (checkpoint_at 99)
                   (mkScript [inr 150; inr 150] [])))).2)
  = 10.
Proof.
  refine (ramp_up_is_over 2
            (mkMachine (streamer_with 99 0 None 10 2 3 true)
               (world_with (checkpoint_at 99)
                  (mkScript [inr 150; inr 150] []))) _).
  left. cbn. lia.
Defined.

(** ** Exports over a run *)

Section Exports.

Context {A : Type} `{StreamerAdapter A}.
Implicit Types (m : Machine A) (s : Streamer).

(** An invariant on the object and on the exports made since [m0]. *)
Lemma do_stream_exports
      (m0 : Machine A) (Q : Streamer -> Prop) (R : Z -> Z -> Prop) :
  Q (self m0) ->
  (forall m r m', Q (self m) -> cycle m r m' -> Q (self m')) ->
  (forall m r m' evs a b,
     Q (self m) -> sync_cycle m = (r, m') ->
     trace (world m') = trace (world m) ++ evs ->
     In (a, b) (exports_of evs) -> R a b) ->
  forall fuel,
    Q (self (do_stream fuel m0).2)
    /\ exists evs,
         trace (world (do_stream fuel m0).2) = trace (world m0) ++ evs
         /\ forall a b, In (a, b) (exports_of evs) -> R a b.
Proof.
  intros HQ0 HQ HR fuel.
  apply (do_stream_invariant
           (fun m' => Q (self m')
                      /\ exists evs,
                           trace (world m') = trace (world m0) ++ evs
                           /\ forall a b, In (a, b) (exports_of evs) -> R a b)).
  - intros m r m' (Hq & evs & Htr & Hall) E.
    pose proof (sync_cycle_inv _ _ _ E) as C.
    split; [by eapply HQ|].
    destruct (cycle_trace _ _ _ C) as (evs' & Htr' & _).
    exists (evs ++ evs'). split; [by rewrite Htr', Htr, app_assoc|].
    intros a b. rewrite exports_of_app, in_app_iff. intros [Hin|Hin].
    + by apply Hall.
    + by eapply (HR m r m' evs').
  - intros m seconds (Hq & evs & Htr & Hall). split; [done|].
    exists (evs ++ [ESleep seconds]). cbn. split; [by rewrite Htr, app_assoc|].
    intros a b. rewrite exports_of_app, in_app_iff. cbn.
    intros [Hin|[]]. by apply Hall.
  - split; [done|]. exists []. split; [by rewrite app_nil_r|]. by intros a b [].
Qed.

(** X6.  Whatever the adapter answers, every range the loop asks it to
    export lies after the block the loop started from, holds at least
    one block and at most [max 1 block_batch_size] of them, and does not
    go beyond the end block. *)
Theorem do_stream_export_ranges fuel m :
  exists evs,
    trace (world (do_stream fuel m).2) = trace (world m) ++ evs
    /\ forall a b, In (a, b) (exports_of evs) ->
         last_synced_block (self m) < a
         /\ a <= b
         /\ b - a + 1 <= Z.max 1 (block_batch_size (self m))
         /\ forall e, end_block (self m) = Some e -> b <= e.
Proof.
  refine (proj2 (do_stream_exports m
            (fun s => same_config (self m) s
                      /\ last_synced_block (self m) <= last_synced_block s)
            _ _ _ _ fuel)).
  - split; [by repeat split|lia].
  - intros m1 r m2 [Hc Hl] C.
    destruct (cycle_counters _ _ _ C) as (Hc' & Hl' & _).
    split; [by eapply same_config_trans|lia].
  - intros m1 r m2 evs a b [Hc Hl] E Htr Hin.
    destruct (sync_cycle_export_range _ _ _ E) as (evs' & Htr' & Hr).
    rewrite Htr' in Htr. apply app_inv_head in Htr. subst evs'.
    destruct (Hr a b Hin) as (-> & Hab & Hw & He & _).
    destruct Hc as (_ & _ & _ & Hend & _ & Hb & _).
    split; [lia|]. split; [done|]. split.
    + destruct (effective_batch_size_cases (self m1)); lia.
    + intros e Hsome. apply He. by rewrite Hend.
Qed.

(** X7.  With [ramp_up_blocks > 0], the blocks up to the one that brings
    [processed_blocks_count] above [ramp_up_blocks] are exported one
    block at a time: counted from a fresh object these are the first
    [ramp_up_blocks + 1] blocks. *)
Theorem ramp_up_exports_single_blocks fuel m :
  0 < ramp_up_blocks (self m) ->
  exists evs,
    trace (world (do_stream fuel m).2) = trace (world m) ++ evs
    /\ forall a b, In (a, b) (exports_of evs) ->
         a <= last_synced_block (self m)
              + (ramp_up_blocks (self m) - processed_blocks_count (self m))
              + 1 ->
         b = a.
Proof.
  intros Hramp.
  refine (proj2 (do_stream_exports m
            (fun s => same_config (self m) s
                      /\ processed_blocks_count s - last_synced_block s
                         = processed_blocks_count (self m)
                           - last_synced_block (self m))
            _ _ _ _ fuel)).
  - split; [by repeat split|lia].
  - intros m1 r m2 [Hc Hp] C.
    destruct (cycle_counters _ _ _ C) as (Hc' & _ & Hp').
    split; [by eapply same_config_trans|lia].
  - intros m1 r m2 evs a b [Hc Hp] E Htr Hin Ha.
    destruct (sync_cycle_export_range _ _ _ E) as (evs' & Htr' & Hr).
    rewrite Htr' in Htr. apply app_inv_head in Htr. subst evs'.
    destruct (Hr a b Hin) as (-> & Hab & Hw & _).
    destruct Hc as (_ & _ & _ & _ & _ & _ & Hr1 & _).
    assert (effective_batch_size (self m1) = 1) as Hone.
    { unfold effective_batch_size. rewrite Hr1.
      destruct (Z.eqb_spec (ramp_up_blocks (self m)) 0); [lia|].
      destruct (Z.ltb_spec 0 (ramp_up_blocks (self m))); [|lia].
      by destruct (Z.leb_spec (processed_blocks_count (self m1))
                              (ramp_up_blocks (self m))); [|lia]. }
    lia.
Qed.

End Exports.

(** A fresh object with two ramp-up blocks in front of a head far away:
    three single blocks, then a batch of ten. *)
Lemma ramp_up_exports_single_blocks_witness :
  exports_of
    (trace (world (do_stream 4
                     (mkMachine (streamer_with 99 0 None 10 2 0 true)
                        (world_with (checkpoint_at 99)
                           (mkScript [inr 150; inr 150; inr 150; inr 150]
                                     [])))).2))
  = [(100, 100); (101, 101); (102, 102); (103, 112)]
  /\ exists evs,
       trace (world (do_stream 4
                       (mkMachine (streamer_with 99 0 None 10 2 0 true)
                          (world_with (checkpoint_at 99)
                             (mkScript [inr 150; inr 150; inr 150; inr 150]
                                       [])))).2)
       = [] ++ evs
       /\ forall a b, In (a, b) (exports_of evs) -> a <= 99 + (2 - 0) + 1 ->
                      b = a.
Proof.
  split; [reflexivity|].
  refine (ramp_up_exports_single_blocks 4
            (mkMachine (streamer_with 99 0 None 10 2 0 true)
               (world_with (checkpoint_at 99)
                  (mkScript [inr 150; inr 150; inr 150; inr 150] []))) _).
  cbn. lia.
Defined.

(** ** Retried errors *)

Section Retry.

Context {A : Type} `{StreamerAdapter A}.
Implicit Types (m : Machine A) (s : Streamer).



End Retry.



(** ** Runs up to an end block *)

Section EndBlock.

Context {A : Type} `{StreamerAdapter A}.
Implicit Types (m : Machine A) (s : Streamer).

Lemma do_stream_returned fuel m m' :
  do_stream fuel m = (Ret tt, m') -> keep_streaming (self m') = false.
Proof.
  revert m. induction fuel as [|fuel IH]; intros m; [done|].
  rewrite do_stream_S.
  destruct (keep_streaming (self m)) eqn:Hkeep; [|by intros [= <-]].
  destruct (sync_cycle m) as [[n|e|] m1]; [apply IH| |done].
  destruct (is_Exception e && retry_errors (self m)); [apply IH|done].
Qed.

Lemma cycle_end_bound m r m' (e : Z) :
  cycle m r m' ->
  end_block (self m) = Some e ->
  last_synced_block (self m) <= e ->
  last_synced_block (self m') <= e.
Proof.
  intros C Hend Hle. destruct C; cbn; try done.
  repeat match goal with x := _ |- _ => subst x end.
  unfold target_of, calculate_target_block. rewrite Hend. lia.
Qed.

(** X10.  The loop returns only when an end block is set and reached; when it
    started at or below the end block it returns exactly there, and
    when it starts at or beyond it, it returns at once, without a call
    to the adapter. *)
Theorem do_stream_returns_at_end_block fuel m :
  (do_stream fuel m).1 = Ret tt ->
  exists e,
    end_block (self m) = Some e
    /\ e <= last_synced_block (self (do_stream fuel m).2)
    /\ (last_synced_block (self m) <= e ->
        last_synced_block (self (do_stream fuel m).2) = e)
    /\ (e <= last_synced_block (self m) ->
        (do_stream fuel m).2 = m).
Proof.
  intros Hret.
  destruct (do_stream fuel m) as [r m'] eqn:Hrun. cbn in Hret. subst r.
  pose proof (do_stream_returned _ _ _ Hrun) as Hkeep.
  pose proof (do_stream_counters fuel m) as (Hc & _).
  rewrite Hrun in Hc. cbn [snd] in *.
  destruct Hc as (_ & _ & _ & Hend & _).
  unfold keep_streaming in Hkeep. rewrite Hend in Hkeep.
  destruct (end_block (self m)) as [e|] eqn:Hsome; [|done].
  exists e. apply Z.ltb_ge in Hkeep. split; [done|]. split; [done|]. split.
  - intros Hle. apply Z.le_antisymm; [|done].
    pose proof (do_stream_invariant
                  (fun m1 => end_block (self m1) = Some e
                             /\ last_synced_block (self m1) <= e)) as Hinv.
    specialize (Hinv ltac:(intros m1 r m2 [He Hl] E;
                           pose proof (sync_cycle_inv _ _ _ E) as C;
                           destruct (cycle_same_config _ _ _ C)
                             as (_ & _ & _ & He' & _);
                           split; [congruence|by eapply cycle_end_bound])
                     ltac:(by intros m1 seconds)
                     fuel m (conj Hsome Hle)).
    rewrite Hrun in Hinv. by destruct Hinv.
  - intros Hge. destruct fuel as [|fuel]; [done|].
    rewrite do_stream_S in Hrun. unfold keep_streaming in Hrun.
    rewrite Hsome in Hrun.
    destruct (Z.ltb_spec (last_synced_block (self m)) e); [lia|].
    by injection Hrun as <-.
Qed.

(** X11.  A bounded run ends.  When an end block [e] is set, batches hold at
    least one block, and the adapter from now on reports heads of at
    least [e + lag] and exports without raising, the loop returns, with
    [last_synced_block = e], after at most [e - last_synced_block]
    cycles. *)
Theorem do_stream_reaches_end_block (good : A -> Prop) fuel m (e : Z) :
  end_block (self m) = Some e ->
  1 <= block_batch_size (self m) ->
  last_synced_block (self m) <= e ->
  (forall a, good a ->
     exists h a', get_current_block_number a = (inr h, a')
                  /\ e + lag (self m) <= h /\ good a') ->
  (forall x y a, good a ->
     exists a', export_all x y a = (None, a') /\ good a') ->
  good (adapter (world m)) ->
  (Z.to_nat (e - last_synced_block (self m)) < fuel)%nat ->
  (do_stream fuel m).1 = Ret tt
  /\ last_synced_block (self (do_stream fuel m).2) = e.
Proof.
  intros Hend Hbatch Hle Hhead Hexport.
  remember (lag (self m)) as l eqn:Hlag.
  remember (block_batch_size (self m)) as bs eqn:Hbs.
  revert m Hend Hle Hlag Hbs.
  induction fuel as [|fuel IH]; intros m Hend Hle Hlag Hbs Hgood Hfuel; [lia|].
  assert (keep_streaming (self m) = (last_synced_block (self m) <? e)) as Hk
    by (unfold keep_streaming; by rewrite Hend).
  rewrite do_stream_S, Hk.
  destruct (Z.ltb_spec (last_synced_block (self m)) e) as [Hlt|Hge];
    [|cbn; split; [done|lia]].
  destruct (Hhead _ Hgood) as (h & a1 & Hget & Hh & Hgood1).
  assert (last_synced_block (self m) < target_of (self m) h <= e) as Ht.
  { unfold target_of, calculate_target_block. rewrite Hend, <- Hlag.
    destruct (effective_batch_size_cases (self m)) as [-> | ->]; lia. }
  destruct (sync_cycle m) as [r m1] eqn:E.
  pose proof (sync_cycle_inv _ _ _ E) as C.
  destruct C as [e' a1' Hh' | h' a1' Hh' Hidle | h' a1' e' a2 s t w1 Hh' Hlt' He
                 | h' a1' a2 s t w1 w2 Hh' Hlt' He];
    rewrite Hget in Hh'; try discriminate Hh'; injection Hh' as <- <-.
  - lia.
  - destruct (Hexport (last_synced_block s + 1) t a1 Hgood1)
      as (a2' & He' & _). rewrite He in He'. discriminate He'.
  - destruct (Hexport (last_synced_block s + 1) t a1 Hgood1)
      as (a2' & He' & Hgood2). rewrite He in He'. injection He' as <-.
    subst s t.
    destruct (Z.leb_spec (target_of (self m) h - last_synced_block (self m)) 0);
      [lia|].
    apply IH; cbn; try done; lia.
Qed.

End EndBlock.

(** A backfill of the blocks -2 to 0 in batches of two. *)
Lemma do_stream_returns_at_end_block_witness :
  let m := mkMachine (streamer_with (-3) 0 (Some 0) 2 0 0 true)
             (world_with (checkpoint_at (-3)) (mkScript [] [])) in
  (do_stream 5 m).1 = Ret tt
  /\ exists e,
       end_block (self m) = Some e
       /\ e <= last_synced_block (self (do_stream 5 m).2)
       /\ (last_synced_block (self m) <= e ->
           last_synced_block (self (do_stream 5 m).2) = e)
       /\ (e <= last_synced_block (self m) -> (do_stream 5 m).2 = m).
Proof.
  intros m. split; [reflexivity|].
  exact (do_stream_returns_at_end_block 5 m eq_refl).
Defined.

(** The same backfill: the scripted adapter, once its scripts are used
    up, reports the head 0 and exports without raising. *)
Lemma do_stream_reaches_end_block_witness :
  let m := mkMachine (streamer_with (-3) 0 (Some 0) 2 0 0 true)
             (world_with (checkpoint_at (-3)) (mkScript [] [])) in
  (do_stream 5 m).1 = Ret tt
  /\ last_synced_block (self (do_stream 5 m).2) = 0.
Proof.
  intros m.
  refine (do_stream_reaches_end_block (fun a => a = mkScript [] []) 5 m 0
            eq_refl _ _ _ _ eq_refl _).
  - cbn. lia.
  - cbn. lia.
  - intros a ->. exists 0, (mkScript [] []). cbn. repeat split. lia.
  - intros x y a ->. by exists (mkScript [] []).
  - cbn. lia.
Defined.

(** ** Cleanup *)

Section Cleanup.

Context {A : Type} `{StreamerAdapter A}.
Implicit Types (m : Machine A) (s : Streamer) (w : World A).

Lemma acquire_trace s m :
  exists evs,
    trace (world (acquire s m).2) = trace (world m) ++ evs
    /\ count_events is_close evs = O
    /\ count_events is_query evs = O.
Proof.
  unfold acquire, bind, adapter_open, call, ret.
  destruct (pid_file s); cbn;
    destruct (open (adapter (world m))) as [[e|] a1]; cbn;
    (by eexists [_]) || (eexists [_; _]; by rewrite <- app_assoc).
Qed.

Lemma do_stream_never_closes fuel m :
  exists evs,
    trace (world (do_stream fuel m).2) = trace (world m) ++ evs
    /\ count_events is_close evs = O.
Proof.
  apply (do_stream_invariant
           (fun m' => exists evs,
                        trace (world m') = trace (world m) ++ evs
                        /\ count_events is_close evs = O)).
  - intros m1 r m2 (evs & Htr & Hc) E.
    destruct (cycle_trace _ _ _ (sync_cycle_inv _ _ _ E))
      as (evs' & Htr' & Hc' & _).
    exists (evs ++ evs'). split; [by rewrite Htr', Htr, app_assoc|].
    rewrite count_events_app. lia.
  - intros m1 seconds (evs & Htr & Hc).
    exists (evs ++ [ESleep seconds]). cbn. split; [by rewrite Htr, app_assoc|].
    rewrite count_events_app. cbn. lia.
  - exists []. by rewrite app_nil_r.
Qed.

Lemma release_trace s m :
  trace (world (release s m).2)
  = trace (world m)
    ++ EClose :: match pid_file s with
                 | Some f => [ERemove f]
                 | None => []
                 end.
Proof.
  unfold release, bind, adapter_close, call, ret.
  destruct (pid_file s); cbn; by rewrite <- ?app_assoc.
Qed.

(** X12.  However [stream] ends, by the loop returning or by an exception
    from [open] or from the loop, the adapter is closed exactly once,
    after every other call made to it, and the pid file, when one was
    asked for, is removed after that; no file is left at its path, be
    it the path of the checkpoint. *)
Theorem stream_always_releases fuel m :
  (stream fuel m).1 <> Timeout ->
  (exists evs,
     trace (world (stream fuel m).2)
     = trace (world m) ++ evs
       ++ EClose :: match pid_file (self m) with
                    | Some f => [ERemove f]
                    | None => []
                    end
     /\ count_events is_close evs = O)
  /\ count_events is_close (trace (world (stream fuel m).2))
     = S (count_events is_close (trace (world m)))
  /\ forall f, pid_file (self m) = Some f ->
       isfile f (files (world (stream fuel m).2)) = false.
Proof.
  intros Hdone.
  assert (exists mb,
            stream fuel m = ((stream fuel m).1, (release (self m) mb).2)
            /\ exists evs, trace (world mb) = trace (world m) ++ evs
                           /\ count_events is_close evs = O)
    as (mb & Hstream & evs & Htr & Hc).
  { destruct (stream_cases fuel m)
      as [(m1 & r & m2 & Hacq & Hloop & _ & Heq)
         |[(m1 & m2 & _ & _ & Heq)|(e & m1 & Hacq & Heq)]];
      [| by rewrite Heq in Hdone |];
      destruct (acquire_trace (self m) m) as (evs1 & Htr1 & Hc1 & _);
      rewrite Hacq in Htr1; cbn [snd] in Htr1.
    - exists m2. split; [by rewrite Heq|].
      destruct (do_stream_never_closes fuel m1) as (evs2 & Htr2 & Hc2).
      rewrite Hloop in Htr2. cbn [snd] in Htr2.
      exists (evs1 ++ evs2). split; [by rewrite Htr2, Htr1, app_assoc|].
      rewrite count_events_app. lia.
    - exists m1. split; [by rewrite Heq|]. by exists evs1. }
  rewrite Hstream. cbn [snd].
  pose proof (release_trace (self m) mb) as Hrel.
  split; [exists evs; split; [by rewrite Hrel, Htr, app_assoc|done]|].
  split.
  - rewrite Hrel, Htr, !count_events_app, Hc.
    destruct (pid_file (self m)); cbn; lia.
  - intros f Hf.
    destruct (release_spec (self m) mb) as (_ & _ & Hfiles & _).
    rewrite Hfiles, Hf. unfold isfile.
    apply bool_decide_eq_false_2. rewrite lookup_delete_eq. by intros [? ?].
Qed.

(** X13.  When [open] raises, [stream] raises the same exception without a
    single head query or export; the adapter is closed all the same,
    the pid file is written and removed, and the object is as it was. *)
Theorem stream_open_raises fuel m (e : PyExc) (a1 : A) :
  open (adapter (world m)) = (Some e, a1) ->
  (stream fuel m).1 = Exc e
  /\ self (stream fuel m).2 = self m
  /\ adapter (world (stream fuel m).2) = close a1
  /\ trace (world (stream fuel m).2)
     = trace (world m)
       ++ match pid_file (self m) with
          | Some f => [EWrite f (Py.str (getpid (world m)));
                       EOpen; EClose; ERemove f]
          | None => [EOpen; EClose]
          end.
Proof.
  intros Hopen. rewrite stream_eq.
  unfold acquire, release, bind, adapter_open, adapter_close, call, ret.
  destruct (pid_file (self m)); cbn; rewrite Hopen; cbn;
    by rewrite <- ?app_assoc.
Qed.

Lemma read_same_lookup (file : string) (v : Z) w w' :
  files w' !! file = files w !! file ->
  read_last_synced_block file w = (Ret v, w) ->
  read_last_synced_block file w' = (Ret v, w').
Proof.
  unfold read_last_synced_block, read_file. intros -> Hr.
  destruct (files w !! file); [|done].
  injection Hr as Hr. by rewrite Hr.
Qed.

(** X14.  When the pid file is not the checkpoint file, the checkpoint file
    holds the last synced block of the object wherever [stream] stands
    or ends, given that it did when [stream] was called. *)
Theorem stream_keeps_checkpoint_in_step fuel m :
  let file := last_synced_block_file (self m) in
  read_last_synced_block file (world m)
  = (Ret (last_synced_block (self m)), world m) ->
  pid_file (self m) <> Some file ->
  read_last_synced_block file (world (stream fuel m).2)
  = (Ret (last_synced_block (self (stream fuel m).2)),
     world (stream fuel m).2).
Proof.
  intros file Hread Hpid.
  assert (files (world (acquire (self m) m).2) !! file
          = files (world m) !! file) as Hacq_files.
  { destruct (acquire_spec (self m) m) as (_ & _ & _ & ->).
    destruct (pid_file (self m)) as [f|]; [|done].
    apply lookup_insert_ne. congruence. }
  assert (forall mb v,
            read_last_synced_block file (world mb) = (Ret v, world mb) ->
            read_last_synced_block file (world (release (self m) mb).2)
            = (Ret v, world (release (self m) mb).2)) as Hrel.
  { intros mb v Hr. apply (read_same_lookup _ _ (world mb)); [|done].
    destruct (release_spec (self m) mb) as (_ & _ & -> & _).
    destruct (pid_file (self m)) as [f|]; [|done].
    apply lookup_delete_ne. congruence. }
  pose proof (acquire_spec (self m) m) as (Hself & _).
  assert (read_last_synced_block file (world (acquire (self m) m).2)
          = (Ret (last_synced_block (self m)), world (acquire (self m) m).2))
    as Hread1
    by (by apply (read_same_lookup _ _ (world m))).
  destruct (stream_cases fuel m)
    as [(m1 & r & m2 & Hacq & Hloop & _ & ->)
       |[(m1 & m2 & Hacq & Hloop & ->)|(e & m1 & Hacq & ->)]];
    rewrite Hacq in Hself, Hread1; cbn [snd] in *; rewrite ?release_self.
  - apply Hrel.
    pose proof (history_ok_do_stream fuel m1) as Hok.
    rewrite Hloop, Hself in Hok. cbn [snd] in Hok.
    destruct (Hok Hread1) as (_ & Hr & _). by rewrite Hself in Hr.
  - pose proof (history_ok_do_stream fuel m1) as Hok.
    rewrite Hloop, Hself in Hok. cbn [snd] in Hok.
    destruct (Hok Hread1) as (_ & Hr & _). by rewrite Hself in Hr.
  - apply Hrel. by rewrite Hself.
Qed.

End Cleanup.

(** A run with a pid file that syncs the blocks 100 and 101 and returns
    at the end block. *)
Lemma stream_always_releases_witness :
  let m := mkMachine
             (mkStreamer "last_synced_block.txt" 0 None (Some 101) 10 10 0 0
                         false (Some "streamer.pid") 99)
             (world_with (checkpoint_at 99) (mkScript [inr 150] [])) in
  (stream 3 m).1 = Ret tt
  /\ count_events is_close (trace (world (stream 3 m).2)) = 1%nat
  /\ isfile "streamer.pid" (files (world (stream 3 m).2)) = false.
Proof.
  intros m. split; [reflexivity|].
  assert ((stream 3 m).1 <> Timeout) as Hdone by (intros E; discriminate E).
  destruct (stream_always_releases 3 m Hdone) as (_ & Hclose & Hpid).
  split; [exact Hclose|exact (Hpid "streamer.pid" eq_refl)].
Defined.

(** An adapter that cannot connect. *)
Lemma stream_open_raises_witness :
  let m := mkMachine (streamer_with 99 0 None 10 0 0 true)
             (mkWorld (checkpoint_at 99) (mkOffline (AdapterError 7)) [] 4242)
  in
  (stream 3 m).1 = Exc (AdapterError 7)
  /\ trace (world (stream 3 m).2) = [EOpen; EClose].
Proof.
  intros m.
  assert (open (adapter (world m))
          = (Some (AdapterError 7), mkOffline (AdapterError 7))) as Hopen
    by reflexivity.
  destruct (stream_open_raises 3 m (AdapterError 7)
              (mkOffline (AdapterError 7)) Hopen)
    as (Hexc & _ & _ & Htr).
  split; [exact Hexc|exact Htr].
Defined.

(** The run with a pid file again: the checkpoint file holds 101 at the
    end. *)
Lemma stream_keeps_checkpoint_in_step_witness :
  let m := mkMachine
             (mkStreamer "last_synced_block.txt" 0 None (Some 101) 10 10 0 0
                         false (Some "streamer.pid") 99)
             (world_with (checkpoint_at 99) (mkScript [inr 150] [])) in
  last_synced_block (self (stream 3 m).2) = 101
  /\ read_last_synced_block "last_synced_block.txt" (world (stream 3 m).2)
     = (Ret (last_synced_block (self (stream 3 m).2)), world (stream 3 m).2).
Proof.
  intros m. split; [reflexivity|].
  refine (stream_keeps_checkpoint_in_step 3 m eq_refl _).
  intros E. discriminate E.
Defined.

(** ** Restarts *)

Section Restart.

Context {A : Type} `{StreamerAdapter A}.
Implicit Types (m : Machine A) (s : Streamer) (w : World A).




(** X17.  After a construction that succeeded, whatever its arguments, a
    second construction on the same path with a start block raises
    [ValueError] and changes nothing, and one without a start block
    changes nothing and resumes from the block the first one read. *)
Theorem restart_after_init file lag start end_ period batch ramp retry pidf
        w s w0 :
  Streamer_init file lag start end_ period batch ramp retry pidf w
  = (Ret s, w0) ->
  (forall lag' sb end' period' batch' ramp' retry' pidf',
     exists msg,
       Streamer_init file lag' (Some sb) end' period' batch' ramp' retry'
                     pidf' w0
       = (Exc (ValueError msg), w0))
  /\ (forall lag' end' period' batch' ramp' retry' pidf',
        exists s',
          Streamer_init file lag' None end' period' batch' ramp' retry'
                        pidf' w0
          = (Ret s', w0)
          /\ last_synced_block s' = last_synced_block s).
Proof.
  intros Hinit.
  destruct (Streamer_init_inv _ _ _ _ _ _ _ _ _ _ _ _ Hinit)
    as (_ & Hread & _).
  pose proof (read_is_file _ _ _ Hread) as Hf.
  split; intros.
  - eexists. unfold Streamer_init, bind, os_path_isfile. rewrite Hf. cbn.
    unfold init_last_synced_block_file, bind, os_path_isfile.
    by rewrite Hf.
  - eexists. unfold Streamer_init, bind at 1, os_path_isfile.
    rewrite Hf. cbn. unfold bind, ret. by rewrite Hread.
Qed.

End Restart.



(** A first run from block 5, then two restarts. *)
Lemma restart_after_init_witness :
  let w := world_with ∅ (mkScript [] []) in
  let w0 := (write_last_synced_block "last_synced_block.txt" 4 w).2 in
  (exists msg,
     Streamer_init "last_synced_block.txt" 0 (Some 5) None 10 10 0 true None
                   w0
     = (Exc (ValueError msg), w0))
  /\ exists s',
       Streamer_init "last_synced_block.txt" 0 None None 10 10 0 true None w0
       = (Ret s', w0)
       /\ last_synced_block s' = 4.
Proof.
  intros w w0.
  assert (Streamer_init "last_synced_block.txt" 0 (Some 5) None 10 10 0 true
                        None w
          = (Ret (mkStreamer "last_synced_block.txt" 0 (Some 5) None 10 10 0
                             0 true None 4), w0)) as Hinit by reflexivity.
  destruct (restart_after_init _ _ _ _ _ _ _ _ _ _ _ _ Hinit)
    as [Hconflict Hresume].
  split.
  - exact (Hconflict 0 5 None 10 10 0 true None).
  - exact (Hresume 0 None 10 10 0 true None).
Defined.

(** ** Checkpoint files written by hand *)

Section Whitespace.

Context {A : Type} `{StreamerAdapter A}.
Implicit Types (w : World A) (txt pre post : string).








End Whitespace.


(** ** Files the loop leaves alone *)

Section Frame.

Context {A : Type} `{StreamerAdapter A}.
Implicit Types (m : Machine A) (path : string).

Lemma cycle_frame m r m' path :
  cycle m r m' ->
  path <> last_synced_block_file (self m) ->
  files (world m') !! path = files (world m) !! path.
Proof.
  intros C Hpath. destruct C; cbn; try done.
  by apply lookup_insert_ne.
Qed.

(** X19.  The loop writes to the checkpoint file and to no other: every other
    path holds after the loop, or wherever the loop stands, what it
    held before, and a path that held nothing still holds nothing. *)
Theorem do_stream_writes_checkpoint_only fuel m path :
  path <> last_synced_block_file (self m) ->
  files (world (do_stream fuel m).2) !! path = files (world m) !! path.
Proof.
  intros Hpath.
  refine (proj2 (do_stream_invariant
            (fun m' => last_synced_block_file (self m')
                       = last_synced_block_file (self m)
                       /\ files (world m') !! path = files (world m) !! path)
            _ _ fuel m (conj eq_refl eq_refl))).
  - intros m1 r m2 [Hfile Hsame] E. apply sync_cycle_inv in E.
    destruct (cycle_same_config _ _ _ E) as (Hfile' & _).
    split; [congruence|].
    rewrite <- Hsame. apply (cycle_frame _ _ _ _ E). congruence.
  - by intros m1 seconds.
Qed.

End Frame.

(** A run next to a file of notes. *)
Lemma do_stream_writes_checkpoint_only_witness :
  let m := mkMachine (streamer_with 99 0 None 10 0 0 true)
             (world_with (<["notes.txt" := "keep"]> (checkpoint_at 99))
                (mkScript [inr 150; inr 150] [])) in
  files (world (do_stream 2 m).2) !! "notes.txt" = Some "keep".
Proof.
  intros m.
  assert ("notes.txt" <> last_synced_block_file (self m)) as Hpath
    by (intros E; discriminate E).
  rewrite (do_stream_writes_checkpoint_only 2 m "notes.txt" Hpath).
  reflexivity.
Defined.
